(** * Colour segmentation utilities: a shallow embedding of
    [segmentation_utils.py] and the properties of its operations.

    Python integers are unbounded and are modelled by [Z]; Python floats
    are IEEE binary64 and are modelled by the Standard Library's
    [spec_float] at precision 53 and maximal exponent 1024; a NumPy image
    is a list of rows of 3-channel pixels; the file system and the display
    surfaces are finite maps keyed by strings; a raised exception is the
    [Raise] case of a result type. *)

From Stdlib Require Import ZArith Ascii String Floats.SpecFloat.
From stdpp Require Import gmap strings list.

Local Open Scope Z_scope.

(** ** Exceptions and results *)

(** The exception classes the module raises or lets through.  [CvError]
    stands for [cv2.error].  Every one of them derives from [Exception]. *)
Inductive exn :=
  | FileNotFoundError
  | ValueError
  | PermissionError
  | RuntimeError
  | ZeroDivisionError
  | OverflowError
  | CvError.

Inductive result (A : Type) :=
  | Ok (a : A)
  | Raise (e : exn).
Arguments Ok {A} a.
Arguments Raise {A} e.

#[global] Instance result_ret : MRet result := λ A a, Ok a.
#[global] Instance result_bind : MBind result := λ A B f r,
  match r with
  | Ok a => f a
  | Raise e => Raise e
  end.

(** [try: body; except Exception as e: handler e] *)
Definition try_except {A} (body : result A) (handler : exn → result A) : result A :=
  match body with
  | Ok a => Ok a
  | Raise e => handler e
  end.

(** ** Parameter normalization *)

(** [return max(1, value | 1)] *)
Definition get_valid_kernel_size (value : Z) : Z :=
  Z.max 1 (Z.lor value 1).

(** The min/max step of [get_trackbar_values]: the two arrays built from
    the six readings. *)
Definition normalize_bounds (l u : Z * Z * Z) : list Z * list Z :=
  let '(l_h, l_s, l_v) := l in
  let '(u_h, u_s, u_v) := u in
  let lower_bound := [Z.min l_h u_h; Z.min l_s u_s; Z.min l_v u_v] in
  let upper_bound := [Z.max l_h u_h; Z.max l_s u_s; Z.max l_v u_v] in
  (lower_bound, upper_bound).

(** The control state is read through [getTrackbarPos], given the trackbar
    name and the window name. *)
Definition get_trackbar_values (getTrackbarPos : string → string → Z)
    (window_name : string) : list Z * list Z :=
  let l_h := getTrackbarPos "LH" window_name in
  let l_s := getTrackbarPos "LS" window_name in
  let l_v := getTrackbarPos "LV" window_name in
  let u_h := getTrackbarPos "UH" window_name in
  let u_s := getTrackbarPos "US" window_name in
  let u_v := getTrackbarPos "UV" window_name in
  normalize_bounds (l_h, l_s, l_v) (u_h, u_s, u_v).

(** The control state in which the lower and the upper sliders have
    exchanged their positions. *)
Definition swap_trackbars (getTrackbarPos : string → string → Z)
    (name window_name : string) : Z :=
  if String.eqb name "LH" then getTrackbarPos "UH" window_name
  else if String.eqb name "LS" then getTrackbarPos "US" window_name
  else if String.eqb name "LV" then getTrackbarPos "UV" window_name
  else if String.eqb name "UH" then getTrackbarPos "LH" window_name
  else if String.eqb name "US" then getTrackbarPos "LS" window_name
  else if String.eqb name "UV" then getTrackbarPos "LV" window_name
  else getTrackbarPos name window_name.

(** ** Python floats *)

Definition prec : Z := 53.
Definition emax : Z := 1024.

(** [float(n)] for an integer [n]: the nearest double, ties to even;
    [OverflowError] when [n] is too large for a double. *)
Definition py_float (n : Z) : result spec_float :=
  match binary_normalize prec emax n 0 false with
  | S754_infinity _ => Raise OverflowError
  | x => Ok x
  end.

(** [x / y] on floats: [ZeroDivisionError] on a zero divisor. *)
Definition py_truediv (x y : spec_float) : result spec_float :=
  match y with
  | S754_zero _ => Raise ZeroDivisionError
  | _ => Ok (SFdiv prec emax x y)
  end.

(** [x * y] on floats. *)
Definition py_mul (x y : spec_float) : spec_float := SFmul prec emax x y.

(** [int(x)] for a float [x]: truncation towards zero; [OverflowError] on
    an infinity and [ValueError] on a NaN. *)
Definition py_int (x : spec_float) : result Z :=
  match x with
  | S754_zero _ => Ok 0
  | S754_infinity _ => Raise OverflowError
  | S754_nan => Raise ValueError
  | S754_finite s m e =>
      let a := Z.shiftl (Z.pos m) e in
      Ok (if s then - a else a)
  end.

(** [int(n * (target / float(d)))], the scaled dimension computed by
    [resize_with_aspect_ratio]: [d] is the source dimension the ratio is
    taken against, [target] the requested one and [n] the other source
    dimension. *)
Definition scaled_dim (n target d : Z) : result Z :=
  fd ← py_float d;
  ftarget ← py_float target;
  r ← py_truediv ftarget fd;
  fn ← py_float n;
  py_int (py_mul fn r).

(** ** Images *)

(** One sample of a 3-channel buffer: B, G, R for a frame and H, S, V for
    its conversion. *)
Record pixel := Px { ch0 : Z; ch1 : Z; ch2 : Z }.

Definition black : pixel := Px 0 0 0.

(** An array of rows. *)
Abbreviation grid A := (list (list A)).

Definition img_height {A} (img : grid A) : Z := Z.of_nat (length img).
Definition img_width {A} (img : grid A) : Z := Z.of_nat (length (hd [] img)).

(** [shape]: the length of every row, top to bottom. *)
Definition shape {A} (img : grid A) : list nat := length <$> img.

(** The sample at row [i] and column [j]. *)
Definition pixel_at {A} (img : grid A) (i j : nat) : option A :=
  row ← img !! i; row !! j.

(** The array of [h] rows and [w] columns whose sample at [(i, j)] is
    [f i j]. *)
Definition mk_image {A} (h w : nat) (f : nat → nat → A) : grid A :=
  (λ i, (λ j, f i j) <$> seq 0 w) <$> seq 0 h.

(** [img.size] of an image of three channels. *)
Definition img_size (img : grid pixel) : Z := img_height img * img_width img * 3.

(** ** Resampler *)

Definition INT_MAX : Z := 2147483647.

Section Resampler.

(** The interpolation method: [inter src dsize i j] is the sample that
    resizing [src] to [dsize = (width, height)] puts at row [i] and
    column [j]. *)
Variable inter : grid pixel → Z * Z → nat → nat → pixel.

(** [cv2.resize(src, dsize, interpolation=inter)]: an error on an empty
    source and on a size that is not positive or does not fit a C int;
    otherwise an image of [dsize]. *)
Definition cv2_resize (src : grid pixel) (dsize : Z * Z) : result (grid pixel) :=
  let '(dw, dh) := dsize in
  if (img_height src =? 0) || (img_width src =? 0) then Raise CvError
  else if (dw <=? 0) || (dh <=? 0) || (INT_MAX <? dw) || (INT_MAX <? dh)
  then Raise CvError
  else Ok (mk_image (Z.to_nat dh) (Z.to_nat dw) (inter src dsize)).

Definition resize_with_aspect_ratio (image : grid pixel)
    (width height : option Z) : result (grid pixel) :=
  let h := img_height image in
  let w := img_width image in
  match width, height with
  | None, None => Ok image
  | None, Some height =>
      fh ← py_float h;
      fheight ← py_float height;
      r ← py_truediv fheight fh;
      fw ← py_float w;
      dw ← py_int (py_mul fw r);
      cv2_resize image (dw, height)
  | Some width, _ =>
      fw ← py_float w;
      fwidth ← py_float width;
      r ← py_truediv fwidth fw;
      fh ← py_float h;
      dh ← py_int (py_mul fh r);
      cv2_resize image (width, dh)
  end.

End Resampler.

(** ** Paths and files *)

(** [c.lower()] on an ASCII character. *)
Definition ascii_lower (c : ascii) : ascii :=
  let n := nat_of_ascii c in
  if ((65 <=? n) && (n <=? 90))%nat then ascii_of_nat (n + 32) else c.

(** [s.lower()] on an ASCII string, see [is_ascii]: outside ASCII
    [str.lower()] follows the Unicode case mapping, which this function
    does not. *)
Fixpoint lower (s : string) : string :=
  match s with
  | EmptyString => EmptyString
  | String c s' => String (ascii_lower c) (lower s')
  end.

(** [s.endswith(suffix)]: some tail of [s] is [suffix]. *)
Fixpoint endswith (s suffix : string) : bool :=
  String.eqb s suffix ||
  match s with
  | EmptyString => false
  | String _ s' => endswith s' suffix
  end.

(** [os.path.join(a, b)] of [posixpath], for a non-empty [a] that does
    not end with a separator. *)
Definition os_path_join (a b : string) : string :=
  match b with
  | String "/"%char _ => b
  | _ => a +:+ "/" +:+ b
  end.

Definition valid_extensions : list string :=
  [".jpg"; ".jpeg"; ".png"; ".bmp"; ".tiff"; ".webp"].

(** [path.lower().endswith(valid_extensions)] *)
Definition has_image_extension (path : string) : bool :=
  existsb (endswith (lower path)) valid_extensions.

(** What the file system holds at a path: whether it is a regular file,
    whether it is readable, and what [cv2.imread] decodes from it ([None]
    when decoding fails). *)
Record file := File {
  is_file : bool;
  readable : bool;
  decoded : option (grid pixel)
}.

Definition check_file_access (fs : gmap string file) (file_path : string)
    : result unit :=
  match fs !! file_path with
  | None => Raise FileNotFoundError
  | Some f =>
      if negb (is_file f) then Raise ValueError
      else if negb (readable f) then Raise PermissionError
      else Ok tt
  end.

Definition cv2_imread (fs : gmap string file) (path : string)
    : option (grid pixel) :=
  f ← fs !! path; decoded f.

Section Loader.

Variable inter : grid pixel → Z * Z → nat → nat → pixel.

Definition load_image (fs : gmap string file) (image_path : string)
    : result (grid pixel) :=
  let image_path := os_path_join "images" image_path in
  _ ← check_file_access fs image_path;
  if negb (has_image_extension image_path) then Raise ValueError
  else
    try_except
      (match cv2_imread fs image_path with
       | None => Raise ValueError
       | Some img =>
           if img_size img =? 0 then Raise ValueError
           else resize_with_aspect_ratio inter img (Some 512) None
       end)
      (λ e, Raise RuntimeError).

End Loader.

(** ** Segmentation engine *)

(** The sample at row [y] and column [x], when both are inside the array. *)
Definition at_offset {A} (m : grid A) (y x : Z) : option A :=
  if (0 <=? y) && (0 <=? x) then pixel_at m (Z.to_nat y) (Z.to_nat x) else None.

(** The samples of [m] under a [ksize] by [ksize] kernel of ones whose
    anchor, the kernel's centre, lies on [(i, j)]; positions outside [m]
    contribute nothing. *)
Definition neighbourhood (m : grid Z) (ksize : Z) (i j : nat) : list Z :=
  let anchor := ksize / 2 in
  di ← seqZ 0 ksize;
  dj ← seqZ 0 ksize;
  option_list (at_offset m (Z.of_nat i + di - anchor) (Z.of_nat j + dj - anchor)).

(** Erosion is the minimum under the kernel and dilation the maximum; the
    default border leaves the positions outside the array out of both. *)
Definition cv2_erode (m : grid Z) (ksize : Z) : grid Z :=
  imap (λ i row, imap (λ j _, foldr Z.min 255 (neighbourhood m ksize i j)) row) m.

Definition cv2_dilate (m : grid Z) (ksize : Z) : grid Z :=
  imap (λ i row, imap (λ j _, foldr Z.max 0 (neighbourhood m ksize i j)) row) m.

Inductive morph_op := MORPH_OPEN | MORPH_CLOSE.

(** [cv2.morphologyEx(m, op, np.ones((ksize, ksize), np.uint8))] *)
Definition cv2_morphologyEx (m : grid Z) (op : morph_op) (ksize : Z) : grid Z :=
  match op with
  | MORPH_OPEN => cv2_dilate (cv2_erode m ksize) ksize
  | MORPH_CLOSE => cv2_erode (cv2_dilate m ksize) ksize
  end.

(** One sample of [cv2.inRange]: 255 when every channel lies within its
    inclusive bounds, else 0.  This is [cv2.inRange] for bounds that are
    arrays of three 32-bit integers, see [valid_bounds]: the library
    narrows wider integers and refuses arrays of another length. *)
Definition in_range (lowerb upperb : list Z) (p : pixel) : Z :=
  let lo c := default 0 (lowerb !! c) in
  let up c := default 0 (upperb !! c) in
  if (lo 0%nat <=? ch0 p) && (ch0 p <=? up 0%nat)
     && (lo 1%nat <=? ch1 p) && (ch1 p <=? up 1%nat)
     && (lo 2%nat <=? ch2 p) && (ch2 p <=? up 2%nat)
  then 255 else 0.

Definition cv2_inRange (src : grid pixel) (lowerb upperb : list Z) : grid Z :=
  (λ row : list pixel, in_range lowerb upperb <$> row) <$> src.

Definition pixel_and (p q : pixel) : pixel :=
  Px (Z.land (ch0 p) (ch0 q)) (Z.land (ch1 p) (ch1 q)) (Z.land (ch2 p) (ch2 q)).

(** [cv2.bitwise_and(src1, src2, mask=mask)] into a fresh destination: the
    conjunction where the mask is not zero, and zero elsewhere. *)
Definition cv2_bitwise_and (src1 src2 : grid pixel) (mask : grid Z) : grid pixel :=
  zip_with
    (zip_with (λ pq m, if m =? 0 then black else pixel_and pq.1 pq.2))
    (zip_with zip src1 src2) mask.

Section Segmentation.

(** The transform [cv2.COLOR_BGR2HSV] applies to each pixel. *)
Variable bgr2hsv : pixel → pixel.

(** [cv2.cvtColor(src, cv2.COLOR_BGR2HSV)] on a frame that is not empty,
    see [nonempty_frame]: the library refuses an empty one. *)
Definition cv2_cvtColor (src : grid pixel) : grid pixel :=
  (λ row : list pixel, bgr2hsv <$> row) <$> src.

Definition apply_mask (image : grid pixel) (lower_bound upper_bound : list Z)
    (kernel_size : Z) : grid Z * grid pixel :=
  let hsv := cv2_cvtColor image in
  let mask := cv2_inRange hsv lower_bound upper_bound in
  let mask :=
    if 1 <? kernel_size then
      let mask := cv2_morphologyEx mask MORPH_OPEN kernel_size in
      cv2_morphologyEx mask MORPH_CLOSE kernel_size
    else mask in
  let result := cv2_bitwise_and image image mask in
  (mask, result).

End Segmentation.

(** The invariant of a mask: every sample is 0 or 255. *)
Definition is_mask (m : grid Z) : Prop :=
  Forall (Forall (λ v, v = 0 ∨ v = 255)) m.

(** ** Display *)

(** [cv2.imshow(winname, mat)]: the surface now shows [mat]. *)
Definition cv2_imshow {A} (winname : string) (mat : A)
    (surfaces : gmap string A) : gmap string A :=
  <[winname := mat]> surfaces.

Definition display_results {A} (original mask result frame : option A)
    (surfaces : gmap string A) : gmap string A :=
  let surfaces :=
    match frame, original with
    | Some frame, _ => cv2_imshow "Original" frame surfaces
    | None, Some original => cv2_imshow "Original" original surfaces
    | None, None => surfaces
    end in
  let surfaces :=
    match mask with
    | Some mask => cv2_imshow "Mask" mask surfaces
    | None => surfaces
    end in
  match result with
  | Some result => cv2_imshow "Result" result surfaces
  | None => surfaces
  end.

(** ** Closed inputs for the examples *)

(** Nearest-neighbour sampling, an interpolation method to run the
    resampler on. *)
Definition nearest (src : grid pixel) (dsize : Z * Z) (i j : nat) : pixel :=
  default black
    (pixel_at src
       (Z.to_nat (Z.of_nat i * img_height src / dsize.2))
       (Z.to_nat (Z.of_nat j * img_width src / dsize.1))).

(** The image of [h] rows and [w] columns of one colour. *)
Definition uniform (h w : nat) (p : pixel) : grid pixel :=
  mk_image h w (λ _ _, p).

(** A conversion that keeps the value channel only, V = max(B, G, R), to
    run the segmentation on. *)
Definition value_only (p : pixel) : pixel :=
  Px 0 0 (Z.max (ch0 p) (Z.max (ch1 p) (ch2 p))).

(** A control state: the lower sliders above the upper ones. *)
Definition crossed_sliders (name window_name : string) : Z :=
  if String.eqb name "LH" then 120
  else if String.eqb name "LS" then 200
  else if String.eqb name "LV" then 50
  else if String.eqb name "UH" then 30
  else if String.eqb name "US" then 100
  else if String.eqb name "UV" then 255
  else -1.

(** File systems: a file that does not decode, a text file, a square image
    of 49 by 49 pixels and a strip of one row of 512 pixels. *)
Definition fs_corrupt : gmap string file :=
  {[ "images/photo.png" := File true true None ]}.

Definition fs_notes : gmap string file :=
  {[ "images/notes.txt" := File true true None ]}.

Definition fs_square : gmap string file :=
  {[ "images/square.png" := File true true (Some (uniform 49 49 (Px 10 20 30))) ]}.

Definition fs_strip : gmap string file :=
  {[ "images/strip.png" := File true true (Some (uniform 1 512 (Px 10 20 30))) ]}.

(** A frame of two rows: a bright and a dark pixel side by side. *)
Definition two_tone : grid pixel :=
  [[Px 200 180 40; Px 3 2 1]; [Px 3 2 1; Px 200 180 40]].

(** The height of a loaded image, or the exception. *)
Definition height_of (r : result (grid pixel)) : result Z :=
  img ← r; mret (img_height img).

(** ** Video *)

Definition valid_video_extensions : list string :=
  [".mp4"; ".avi"; ".mov"; ".mkv"; ".wmv"; ".flv"].

(** [path.lower().endswith(valid_video_extensions)] *)
Definition has_video_extension (path : string) : bool :=
  existsb (endswith (lower path)) valid_video_extensions.

(** A [cv2.VideoCapture] object: the file it was made for and whether the
    stream is open. *)
Record capture := Capture {
  cap_filename : string;
  isOpened : bool
}.

(** [cap.release()] closes the stream. *)
Definition cap_release (cap : capture) : capture :=
  Capture (cap_filename cap) false.

Section VideoLoader.

(** Whether the video backend manages to open the file at a path. *)
Variable can_open : string → bool.

(** [cv2.VideoCapture(path)] never raises: a file that cannot be opened
    gives a capture that is not open. *)
Definition cv2_VideoCapture (path : string) : capture :=
  Capture path (can_open path).

Definition load_video (fs : gmap string file) (video_path : string)
    : result capture :=
  let video_path := os_path_join "videos" video_path in
  _ ← check_file_access fs video_path;
  if negb (has_video_extension video_path) then Raise ValueError
  else
    try_except
      (let cap := cv2_VideoCapture video_path in
       if negb (isOpened cap) then Raise ValueError
       else Ok cap)
      (λ e, Raise RuntimeError).

End VideoLoader.

(** [release_video(cap)]: the capture object after the call, [None] for
    the [None] argument. *)
Definition release_video (cap : option capture) : option capture :=
  match cap with
  | Some c => if isOpened c then Some (cap_release c) else Some c
  | None => None
  end.

(** ** Windows and trackbars *)

(** A HighGUI window: its properties by identifier, and its trackbars by
    name, each with its position and its maximal position. *)
Record window := Window {
  props : gmap Z Z;
  trackbars : gmap string (Z * Z)
}.

Definition WND_PROP_TOPMOST : Z := 5.

(** [cv2.namedWindow(winname)]: a window of that name is created unless
    there is one. *)
Definition cv2_namedWindow (winname : string) (gui : gmap string window)
    : gmap string window :=
  match gui !! winname with
  | Some _ => gui
  | None => <[winname := Window ∅ ∅]> gui
  end.

(** [cv2.setWindowProperty(winname, prop_id, prop_value)] *)
Definition cv2_setWindowProperty (winname : string) (prop_id prop_value : Z)
    (gui : gmap string window) : gmap string window :=
  alter (λ w, Window (<[prop_id := prop_value]> (props w)) (trackbars w)) winname gui.

(** [cv2.createTrackbar(trackbarname, winname, value, count, onChange)]:
    the window gets a trackbar at position [value] with maximum [count].
    The callback of this module does nothing and is left out. *)
Definition cv2_createTrackbar (trackbarname winname : string) (value count : Z)
    (gui : gmap string window) : gmap string window :=
  alter (λ w, Window (props w) (<[trackbarname := (value, count)]> (trackbars w)))
    winname gui.

(** [cv2.getTrackbarPos(trackbarname, winname)]: the position, and -1
    where there is no such trackbar. *)
Definition cv2_getTrackbarPos (gui : gmap string window)
    (trackbarname winname : string) : Z :=
  match gui !! winname ≫= (λ w, trackbars w !! trackbarname) with
  | Some (pos, _) => pos
  | None => -1
  end.

Definition create_trackbars (window_name : string) (gui : gmap string window)
    : gmap string window :=
  let gui := cv2_namedWindow window_name gui in
  let gui := cv2_setWindowProperty window_name WND_PROP_TOPMOST 1 gui in
  let gui := cv2_createTrackbar "LH" window_name 0 179 gui in
  let gui := cv2_createTrackbar "LS" window_name 50 255 gui in
  let gui := cv2_createTrackbar "LV" window_name 50 255 gui in
  let gui := cv2_createTrackbar "UH" window_name 179 179 gui in
  let gui := cv2_createTrackbar "US" window_name 255 255 gui in
  cv2_createTrackbar "UV" window_name 255 255 gui.

(** The outcome of [create_display_windows] and the windows after it. *)
Definition create_display_windows (input_type : string)
    (gui : gmap string window) : result unit * gmap string window :=
  if negb (bool_decide (input_type ∈ ["img"; "video"])) then (Raise ValueError, gui)
  else
    let window_names := ["Mask"; "Result"; "Original"] in
    (Ok tt,
     foldl (λ gui window,
              cv2_setWindowProperty window WND_PROP_TOPMOST 1
                (cv2_namedWindow window gui))
           gui window_names).

(** ** Orders on arrays *)

(** Every sample is an 8-bit value. *)
Definition is_uint8 (m : grid Z) : Prop :=
  Forall (Forall (λ v, 0 ≤ v ≤ 255)) m.

(** [a] and [b] have one shape and [a] is at most [b] at every position. *)
Definition grid_le (a b : grid Z) : Prop :=
  shape a = shape b ∧
  ∀ i j x y, pixel_at a i j = Some x → pixel_at b i j = Some y → x ≤ y.

(** ** The domain of the library functions *)

(** A string of ASCII characters only. *)
Definition is_ascii (s : string) : bool :=
  forallb (λ c, (nat_of_ascii c <? 128)%nat) (list_ascii_of_string s).

Definition INT_MIN : Z := -2147483648.

(** Bounds that [cv2.inRange] takes as they are: an array of three
    entries, each within the 32-bit signed integers. *)
Definition valid_bounds (b : list Z) : bool :=
  (length b =? 3)%nat && forallb (λ v, (INT_MIN <=? v) && (v <=? INT_MAX)) b.

(** A frame of at least one pixel, that is, [image.size != 0]. *)
Definition nonempty_frame (image : grid pixel) : bool :=
  negb (img_size image =? 0).

(** ** Further closed inputs *)

(** The last character of a string. *)
Fixpoint last_char (s : string) : option ascii :=
  match s with
  | EmptyString => None
  | String c EmptyString => Some c
  | String _ s' => last_char s'
  end.

(** A file system with an image under both roots, a video, a directory
    and a file that may not be read. *)
Definition fs_media : gmap string file :=
  <["images/strip.png" := File true true (Some (uniform 1 512 (Px 10 20 30)))]>
  (<["videos/strip.png" := File true true None]>
  (<["videos/clip.mp4" := File true true None]>
  (<["images/album.png" := File false true None]>
  (<["images/secret.png" := File true false None]> ∅)))).

(** An image of one row of 1024 pixels. *)
Definition fs_flat : gmap string file :=
  {[ "images/flat.png" := File true true (Some (uniform 1 1024 (Px 10 20 30))) ]}.

(** A backend that opens every file, and one that opens none. *)
Definition opens_all (path : string) : bool := true.
Definition opens_none (path : string) : bool := false.

(** ** Properties of the parameter normalization *)

Lemma lor_1_odd (v : Z) : Z.odd (Z.lor v 1) = true.
Proof.
  rewrite <- Z.bit0_odd, Z.lor_spec. simpl.
  apply orb_true_r.
Qed.

Lemma lor_1_of_odd (v : Z) : Z.odd v = true → Z.lor v 1 = v.
Proof.
  intros Hv. apply Z.bits_inj'. intros n Hn.
  rewrite Z.lor_spec.
  destruct (Z.eq_dec n 0) as [-> | Hne].
  - rewrite Z.bit0_odd, Hv. reflexivity.
  - assert (Z.testbit 1 n = false) as ->.
    { apply (Z.bits_above_log2 1 n); simpl; lia. }
    apply orb_false_r.
Qed.

Lemma testbit_1_above (n : Z) : 0 < n → Z.testbit 1 n = false.
Proof. intros Hn. apply (Z.bits_above_log2 1 n); simpl; lia. Qed.

Lemma lor_1_of_even (v : Z) : Z.even v = true → Z.lor v 1 = v + 1.
Proof.
  intros Hv.
  assert (Z.land v 1 = 0) as Hland.
  { apply Z.bits_inj'. intros n Hn.
    rewrite Z.land_spec, Z.bits_0.
    destruct (Z.eq_dec n 0) as [-> | Hne].
    - rewrite Z.bit0_odd, <- Z.negb_even, Hv. reflexivity.
    - rewrite testbit_1_above by lia. apply andb_false_r. }
  pose proof (Z.add_lor_land v 1) as Hadd. lia.
Qed.

(** C7. [get_valid_kernel_size] is defined on every integer, and its value
    is always odd and at least 1: zero, negative and even inputs are
    normalized, never rejected. *)
Theorem get_valid_kernel_size_odd_pos (v : Z) :
  Z.odd (get_valid_kernel_size v) = true ∧ 1 ≤ get_valid_kernel_size v.
Proof.
  unfold get_valid_kernel_size. split; [| lia].
  destruct (Z.max_spec 1 (Z.lor v 1)) as [[_ ->] | [_ ->]].
  - apply lor_1_odd.
  - reflexivity.
Qed.

(** C2, as stated, fails at [v = 1]: 1 is odd and at least 1, and the
    kernel sizes of 1 and of 2 are 1 and 3. *)
Lemma get_valid_kernel_size_odd_succ_differs :
  Z.odd 1 = true ∧ 1 ≤ 1 ∧
  get_valid_kernel_size 1 = 1 ∧ get_valid_kernel_size (1 + 1) = 3 ∧
  get_valid_kernel_size 1 ≠ get_valid_kernel_size (1 + 1).
Proof. repeat split; done. Qed.

(** C2, amended. For every even integer [v], [get_valid_kernel_size] gives
    equal results on [v] and [v + 1], namely [max(1, v + 1)]; at [v = 4]
    both are 5. *)
Theorem get_valid_kernel_size_even_succ (v : Z) (Hv : Z.even v = true) :
  get_valid_kernel_size v = get_valid_kernel_size (v + 1) ∧
  get_valid_kernel_size (v + 1) = Z.max 1 (v + 1).
Proof.
  unfold get_valid_kernel_size.
  rewrite (lor_1_of_even v Hv).
  rewrite (lor_1_of_odd (v + 1)); [done |].
  rewrite Z.odd_add, <- Z.negb_even, Hv. reflexivity.
Qed.

Lemma get_valid_kernel_size_even_succ_witness :
  get_valid_kernel_size 4 = get_valid_kernel_size 5 ∧
  get_valid_kernel_size 5 = 5.
Proof. apply (get_valid_kernel_size_even_succ 4). reflexivity. Defined.

(** For an odd [v] at least 1 the two results are [v] and [v + 2]. *)
Lemma get_valid_kernel_size_odd_succ (v : Z) :
  Z.odd v = true → 1 ≤ v →
  get_valid_kernel_size v = v ∧ get_valid_kernel_size (v + 1) = v + 2.
Proof.
  intros Hv Hpos. unfold get_valid_kernel_size.
  rewrite (lor_1_of_odd v Hv).
  rewrite (lor_1_of_even (v + 1)); [lia |].
  rewrite Z.even_add, <- Z.negb_odd, Hv. reflexivity.
Qed.

(** C6. Whatever the six readings, the pair of bounds has three channels,
    every channel of the lower bound is the smaller and every channel of
    the upper bound the greater of the two readings of that channel, so
    the lower bound is at most the upper one on every channel; exchanging
    the two triplets (the lower sliders with the upper ones) gives the
    same pair. *)
Theorem get_trackbar_values_ordered_symmetric
    (a b : Z * Z * Z) (getTrackbarPos : string → string → Z) (window_name : string) :
  normalize_bounds a b
    = ([Z.min a.1.1 b.1.1; Z.min a.1.2 b.1.2; Z.min a.2 b.2],
       [Z.max a.1.1 b.1.1; Z.max a.1.2 b.1.2; Z.max a.2 b.2]) ∧
  length (normalize_bounds a b).1 = 3%nat ∧
  length (normalize_bounds a b).2 = 3%nat ∧
  Forall2 Z.le (normalize_bounds a b).1 (normalize_bounds a b).2 ∧
  normalize_bounds a b = normalize_bounds b a ∧
  get_trackbar_values getTrackbarPos window_name
    = normalize_bounds
        (getTrackbarPos "LH" window_name, getTrackbarPos "LS" window_name,
         getTrackbarPos "LV" window_name)
        (getTrackbarPos "UH" window_name, getTrackbarPos "US" window_name,
         getTrackbarPos "UV" window_name) ∧
  length (get_trackbar_values getTrackbarPos window_name).1 = 3%nat ∧
  length (get_trackbar_values getTrackbarPos window_name).2 = 3%nat ∧
  Forall2 Z.le (get_trackbar_values getTrackbarPos window_name).1
               (get_trackbar_values getTrackbarPos window_name).2 ∧
  get_trackbar_values (swap_trackbars getTrackbarPos) window_name =
  get_trackbar_values getTrackbarPos window_name.
Proof.
  assert (∀ x y, Forall2 Z.le (normalize_bounds x y).1 (normalize_bounds x y).2) as Hle.
  { intros [[xh xs] xv] [[yh ys] yv]. simpl.
    repeat constructor; lia. }
  assert (∀ x y, normalize_bounds x y = normalize_bounds y x) as Hsym.
  { intros [[xh xs] xv] [[yh ys] yv]. simpl.
    by rewrite (Z.min_comm xh), (Z.min_comm xs), (Z.min_comm xv),
      (Z.max_comm xh), (Z.max_comm xs), (Z.max_comm xv). }
  assert (∀ x y, length (normalize_bounds x y).1 = 3%nat ∧
                 length (normalize_bounds x y).2 = 3%nat) as Hlen.
  { by intros [[xh xs] xv] [[yh ys] yv]. }
  split; [by destruct a as [[ah as'] av], b as [[bh bs] bv] |].
  split; [apply Hlen |]. split; [apply Hlen |].
  split; [apply Hle |]. split; [apply Hsym |].
  split; [reflexivity |].
  split; [apply Hlen |]. split; [apply Hlen |]. split; [apply Hle |].
  unfold get_trackbar_values, swap_trackbars. simpl.
  apply (Hsym (_, _, _) (_, _, _)).
Qed.

(** C8. With neither [width] nor [height] given, [resize_with_aspect_ratio]
    returns its input image. *)
Theorem resize_with_aspect_ratio_identity
    (inter : grid pixel → Z * Z → nat → nat → pixel) (image : grid pixel) :
  resize_with_aspect_ratio inter image None None = Ok image.
Proof. reflexivity. Qed.

(** C10. When [frame] is given, the surface "Original" shows the frame,
    whether or not [original] is given too, and [original] has no effect
    at all; [original] is shown when [frame] is [None]. *)
Theorem display_results_frame_precedence {A : Type}
    (original frame : A) (o mask result : option A) (surfaces : gmap string A) :
  display_results (Some original) mask result (Some frame) surfaces !! "Original"
    = Some frame ∧
  display_results o mask result (Some frame) surfaces
    = display_results None mask result (Some frame) surfaces ∧
  display_results (Some original) mask result None surfaces !! "Original"
    = Some original.
Proof.
  unfold display_results, cv2_imshow.
  split; [| split; [by destruct o |]];
    destruct mask, result; by simplify_map_eq.
Qed.

(** ** Properties of the resampler *)

Lemma img_height_mk_image {A} (h w : nat) (f : nat → nat → A) :
  img_height (mk_image h w f) = Z.of_nat h.
Proof. unfold img_height, mk_image. by rewrite length_fmap, length_seq. Qed.

Lemma img_width_mk_image {A} (h w : nat) (f : nat → nat → A) :
  (0 < h)%nat → img_width (mk_image h w f) = Z.of_nat w.
Proof.
  intros Hh. unfold img_width, mk_image.
  destruct h as [| h']; [lia |].
  simpl. by rewrite length_fmap, length_seq.
Qed.

(** A successful [cv2.resize] returns an image of the requested size. *)
Lemma cv2_resize_dims inter src dw dh out :
  cv2_resize inter src (dw, dh) = Ok out →
  img_width out = dw ∧ img_height out = dh.
Proof.
  unfold cv2_resize.
  destruct ((img_height src =? 0) || (img_width src =? 0)); [done |].
  destruct ((dw <=? 0) || (dh <=? 0) || (INT_MAX <? dw) || (INT_MAX <? dh))
    eqn:Hsize; [done |].
  intros [= <-].
  repeat (apply orb_false_elim in Hsize as [Hsize ?]).
  rewrite img_height_mk_image, img_width_mk_image by lia.
  lia.
Qed.

(** What [resize_with_aspect_ratio] does once [width] is given. *)
Lemma resize_with_aspect_ratio_width inter image width height :
  resize_with_aspect_ratio inter image (Some width) height =
  dh ← scaled_dim (img_height image) width (img_width image);
  cv2_resize inter image (width, dh).
Proof.
  unfold resize_with_aspect_ratio, scaled_dim.
  destruct (py_float (img_width image)); [| done]. simpl.
  destruct (py_float width); [| done]. simpl.
  destruct (py_truediv _ _); [| done]. simpl.
  destruct (py_float (img_height image)); [| done]. simpl.
  done.
Qed.




(** ** Properties of the loader *)

#[local] Arguments resize_with_aspect_ratio : simpl never.
#[local] Arguments scaled_dim : simpl never.
#[local] Arguments cv2_resize : simpl never.

(** The extension test on the path under the images root is the test on
    the name: no extension starts inside "images/". *)
Lemma has_image_extension_join (name : string) :
  has_image_extension (os_path_join "images" name) = has_image_extension name.
Proof.
  destruct name as [| c name']; [reflexivity |].
  destruct c as [[] [] [] [] [] [] [] []]; reflexivity.
Qed.

(** [check_file_access] passes exactly on a readable regular file. *)
Lemma check_file_access_ok fs path f :
  fs !! path = Some f → is_file f = true → readable f = true →
  check_file_access fs path = Ok tt.
Proof. intros Hf Hfile Hread. unfold check_file_access. by rewrite Hf, Hfile, Hread. Qed.

(** C3. What the code does on an undecodable image: for a readable regular file
    with an image extension whose decoding fails or gives a buffer of size
    zero, [load_image] raises [RuntimeError], since the [ValueError]
    raised inside the [try] is caught by its [except Exception]. *)
Theorem load_image_undecodable inter fs name f
    (Hf : fs !! os_path_join "images" name = Some f)
    (Hfile : is_file f = true) (Hread : readable f = true)
    (Hext : has_image_extension name = true)
    (Hdec : decoded f = None ∨ ∃ img, decoded f = Some img ∧ img_size img = 0) :
  load_image inter fs name = Raise RuntimeError.
Proof.
  unfold load_image.
  rewrite (check_file_access_ok _ _ _ Hf Hfile Hread). simpl.
  rewrite has_image_extension_join, Hext. simpl.
  unfold cv2_imread. rewrite Hf. simpl.
  destruct Hdec as [-> | (img & -> & Hsize)]; [done |].
  by rewrite Hsize.
Qed.

Lemma load_image_undecodable_witness :
  load_image nearest fs_corrupt "photo.png" = Raise RuntimeError.
Proof.
  apply (load_image_undecodable nearest fs_corrupt "photo.png" (File true true None));
    [reflexivity | reflexivity | reflexivity | reflexivity | left; reflexivity].
Defined.

(** C4, as stated, fails: "notes.txt" has no image extension, and where it
    does not exist [load_image] raises [FileNotFoundError]. *)
Lemma load_image_missing_text_file :
  has_image_extension "notes.txt" = false ∧
  load_image nearest ∅ "notes.txt" = Raise FileNotFoundError ∧
  load_image nearest ∅ "notes.txt" ≠ Raise ValueError.
Proof. repeat split; done. Qed.

(** C4, amended. A name whose path under the images root does not exist
    raises [FileNotFoundError] whatever its extension; a name without an
    image extension raises [ValueError] when that path is a readable
    regular file. *)
Theorem load_image_missing_or_bad_extension inter fs name :
  (fs !! os_path_join "images" name = None →
   load_image inter fs name = Raise FileNotFoundError) ∧
  (has_image_extension name = false →
   ∀ f, fs !! os_path_join "images" name = Some f →
        is_file f = true → readable f = true →
        load_image inter fs name = Raise ValueError).
Proof.
  unfold load_image. split.
  - intros Hnone. unfold check_file_access. by rewrite Hnone.
  - intros Hext f Hf Hfile Hread.
    rewrite (check_file_access_ok _ _ _ Hf Hfile Hread). simpl.
    by rewrite has_image_extension_join, Hext.
Qed.

Lemma load_image_missing_or_bad_extension_witness :
  load_image nearest fs_notes "photo.png" = Raise FileNotFoundError ∧
  load_image nearest fs_notes "notes.txt" = Raise ValueError.
Proof.
  split.
  - apply (proj1 (load_image_missing_or_bad_extension nearest fs_notes "photo.png")).
    reflexivity.
  - apply (proj2 (load_image_missing_or_bad_extension nearest fs_notes "notes.txt")
             eq_refl (File true true None)); reflexivity.
Defined.

(** C9, as stated, fails: a square image of 49 by 49 pixels is loaded as
    an image 511 high, while 49 * 512 / 49 is 512; the product
    [49 * (512 / 49.0)] is the double just below 512. *)
Lemma load_image_square_height :
  cv2_imread fs_square "images/square.png" = Some (uniform 49 49 (Px 10 20 30)) ∧
  img_height (uniform 49 49 (Px 10 20 30)) = 49 ∧
  img_width (uniform 49 49 (Px 10 20 30)) = 49 ∧
  height_of (load_image nearest fs_square "square.png") = Ok 511 ∧
  49 * 512 / 49 = 512.
Proof. repeat split; lazy; reflexivity. Qed.

(** C9, amended. An image that [load_image] returns is exactly 512 wide,
    and its height is [int(h * (512 / float(w)))] of the decoded source's
    height [h] and width [w], computed in double precision. *)
Theorem load_image_dims inter fs name out
    (Hout : load_image inter fs name = Ok out) :
  ∃ src, cv2_imread fs (os_path_join "images" name) = Some src ∧
    img_width out = 512 ∧
    scaled_dim (img_height src) 512 (img_width src) = Ok (img_height out).
Proof.
  unfold load_image in Hout.
  destruct (check_file_access _ _); [| done]. simpl in Hout.
  destruct (has_image_extension _); [| done]. simpl in Hout.
  destruct (cv2_imread _ _) as [src |]; [| done].
  exists src. split; [done |].
  destruct (img_size src =? 0); [done |].
  rewrite resize_with_aspect_ratio_width in Hout.
  destruct (scaled_dim _ _ _) as [dh |]; [| done]. simpl in Hout.
  destruct (cv2_resize _ _ _) as [out' |] eqn:Hresize; [| done].
  simpl in Hout. injection Hout as <-.
  apply cv2_resize_dims in Hresize as [-> ->]. done.
Qed.

Lemma load_image_dims_witness :
  ∃ src, cv2_imread fs_strip (os_path_join "images" "strip.png") = Some src ∧
    img_width (mk_image 1 512 (nearest (uniform 1 512 (Px 10 20 30)) (512, 1))) = 512 ∧
    scaled_dim (img_height src) 512 (img_width src)
      = Ok (img_height (mk_image 1 512 (nearest (uniform 1 512 (Px 10 20 30)) (512, 1)))).
Proof.
  apply (load_image_dims nearest fs_strip "strip.png").
  vm_compute. reflexivity.
Defined.

(** ** Properties of the segmentation engine *)

Lemma pixel_at_Some {A} (m : grid A) i j v :
  pixel_at m i j = Some v ↔ ∃ row, m !! i = Some row ∧ row !! j = Some v.
Proof.
  unfold pixel_at. destruct (m !! i) as [row |]; simpl.
  - split; [eauto | by intros (? & [= <-] & ?)].
  - split; [done | by intros (? & ? & ?)].
Qed.

(** Arrays of one shape have their samples at the same positions. *)
Lemma pixel_at_same_shape {A B} (a : grid A) (b : grid B) i j v :
  shape b = shape a → pixel_at a i j = Some v → ∃ u, pixel_at b i j = Some u.
Proof.
  unfold shape. intros Hshape (row & Hrow & Hv)%pixel_at_Some.
  assert ((length <$> b) !! i = Some (length row)) as Hlen.
  { rewrite Hshape, list_lookup_fmap, Hrow. done. }
  rewrite list_lookup_fmap in Hlen.
  destruct (b !! i) as [brow |] eqn:Hbrow; [| done].
  injection Hlen as Hlen.
  destruct (lookup_lt_is_Some_2 brow j) as [u Hu].
  { rewrite Hlen. by eapply lookup_lt_Some. }
  exists u. apply pixel_at_Some. eauto.
Qed.

Lemma shape_fmap {A B} (f : A → B) (m : grid A) :
  shape ((λ row : list A, f <$> row) <$> m) = shape m.
Proof.
  unfold shape. rewrite <- list_fmap_compose.
  apply list_fmap_ext. intros _ row _. simpl. apply length_fmap.
Qed.

Lemma shape_imap {A B} (g : nat → nat → B) (m : grid A) :
  shape (imap (λ i row, imap (λ j _, g i j) row) m) = shape m.
Proof.
  unfold shape. apply list_eq. intros i.
  rewrite !list_lookup_fmap, list_lookup_imap.
  destruct (m !! i) as [row |]; simpl; [| done].
  by rewrite length_imap.
Qed.

Lemma is_mask_pixel m i j v :
  is_mask m → pixel_at m i j = Some v → v = 0 ∨ v = 255.
Proof.
  intros Hm (row & Hrow & Hv)%pixel_at_Some.
  eapply Forall_lookup_1 in Hm; [| exact Hrow].
  eapply Forall_lookup_1 in Hm; [| exact Hv]. exact Hm.
Qed.

Lemma is_mask_imap {A} (g : nat → nat → Z) (m : grid A) :
  (∀ i j, g i j = 0 ∨ g i j = 255) →
  is_mask (imap (λ i row, imap (λ j _, g i j) row) m).
Proof.
  intros Hg. apply Forall_lookup. intros i row' Hrow'.
  rewrite list_lookup_imap in Hrow'.
  destruct (m !! i) as [row |]; simplify_eq/=.
  apply Forall_lookup. intros j v Hv.
  rewrite list_lookup_imap in Hv.
  destruct (row !! j); simplify_eq/=. apply Hg.
Qed.

(** Every sample under the kernel is a sample of the array. *)
Lemma neighbourhood_elem m ksize i j v :
  v ∈ neighbourhood m ksize i j → ∃ y x, pixel_at m y x = Some v.
Proof.
  unfold neighbourhood.
  intros (di & (dj & Hv & _)%list_elem_of_bind & _)%list_elem_of_bind.
  unfold at_offset in Hv.
  destruct (_ && _); [| by apply elem_of_nil in Hv].
  destruct (pixel_at m _ _) as [u |] eqn:Hu; simpl in Hv.
  - apply list_elem_of_singleton in Hv as ->. eauto.
  - by apply elem_of_nil in Hv.
Qed.

Lemma neighbourhood_binary m ksize i j :
  is_mask m → Forall (λ v, v = 0 ∨ v = 255) (neighbourhood m ksize i j).
Proof.
  intros Hm. apply Forall_forall. intros v (y & x & Hv)%neighbourhood_elem.
  by eapply is_mask_pixel.
Qed.

Lemma foldr_min_binary (l : list Z) :
  Forall (λ v, v = 0 ∨ v = 255) l →
  foldr Z.min 255 l = 0 ∨ foldr Z.min 255 l = 255.
Proof. induction 1 as [| v l Hv _ IH]; simpl; lia. Qed.

Lemma foldr_max_binary (l : list Z) :
  Forall (λ v, v = 0 ∨ v = 255) l →
  foldr Z.max 0 l = 0 ∨ foldr Z.max 0 l = 255.
Proof. induction 1 as [| v l Hv _ IH]; simpl; lia. Qed.

Lemma is_mask_erode m ksize : is_mask m → is_mask (cv2_erode m ksize).
Proof.
  intros Hm. unfold cv2_erode.
  apply (is_mask_imap (λ i j, foldr Z.min 255 (neighbourhood m ksize i j))).
  intros i j. by apply foldr_min_binary, neighbourhood_binary.
Qed.

Lemma is_mask_dilate m ksize : is_mask m → is_mask (cv2_dilate m ksize).
Proof.
  intros Hm. unfold cv2_dilate.
  apply (is_mask_imap (λ i j, foldr Z.max 0 (neighbourhood m ksize i j))).
  intros i j. by apply foldr_max_binary, neighbourhood_binary.
Qed.

Lemma shape_erode m ksize : shape (cv2_erode m ksize) = shape m.
Proof. apply (shape_imap (λ i j, foldr Z.min 255 (neighbourhood m ksize i j))). Qed.

Lemma shape_dilate m ksize : shape (cv2_dilate m ksize) = shape m.
Proof. apply (shape_imap (λ i j, foldr Z.max 0 (neighbourhood m ksize i j))). Qed.

(** Opening and closing keep the shape and the invariant of a mask. *)
Lemma morphologyEx_mask m op ksize :
  is_mask m →
  is_mask (cv2_morphologyEx m op ksize) ∧ shape (cv2_morphologyEx m op ksize) = shape m.
Proof.
  intros Hm. destruct op; simpl.
  - split; [by apply is_mask_dilate, is_mask_erode |].
    by rewrite shape_dilate, shape_erode.
  - split; [by apply is_mask_erode, is_mask_dilate |].
    by rewrite shape_erode, shape_dilate.
Qed.

Lemma is_mask_inRange src lowerb upperb : is_mask (cv2_inRange src lowerb upperb).
Proof.
  unfold cv2_inRange. apply Forall_fmap, Forall_true. intros row. simpl.
  apply Forall_fmap, Forall_true. intros p. simpl.
  unfold in_range. destruct (_ && _); auto.
Qed.

Lemma pixel_and_diag p : pixel_and p p = p.
Proof. destruct p. unfold pixel_and. simpl. by rewrite !Z.land_diag. Qed.

(** [cv2.bitwise_and(image, image, mask=mask)], sample by sample. *)
Lemma pixel_at_bitwise_and image mask i j p v :
  pixel_at image i j = Some p → pixel_at mask i j = Some v →
  pixel_at (cv2_bitwise_and image image mask) i j
    = Some (if v =? 0 then black else p).
Proof.
  intros (row & Hrow & Hp)%pixel_at_Some (mrow & Hmrow & Hv)%pixel_at_Some.
  apply pixel_at_Some. unfold cv2_bitwise_and.
  eexists. rewrite !lookup_zip_with, Hrow, Hmrow. simpl.
  split; [reflexivity |].
  rewrite lookup_zip_with, lookup_zip_with, Hp, Hv. simpl.
  by rewrite pixel_and_diag.
Qed.

Lemma shape_bitwise_and image mask :
  shape mask = shape image → shape (cv2_bitwise_and image image mask) = shape image.
Proof.
  unfold shape, cv2_bitwise_and. intros Hshape.
  apply list_eq. intros i.
  assert ((length <$> mask) !! i = (length <$> image) !! i) as Hi by by rewrite Hshape.
  rewrite !list_lookup_fmap in Hi.
  rewrite !list_lookup_fmap, !lookup_zip_with.
  destruct (image !! i) as [row |], (mask !! i) as [mrow |]; simplify_eq/=; [| done].
  rewrite length_zip_with, length_zip_with. f_equal. lia.
Qed.

(** The mask [apply_mask] returns has the shape of the frame and the
    invariant of a mask. *)
Lemma apply_mask_mask bgr2hsv image lower_bound upper_bound kernel_size :
  is_mask (apply_mask bgr2hsv image lower_bound upper_bound kernel_size).1 ∧
  shape (apply_mask bgr2hsv image lower_bound upper_bound kernel_size).1 = shape image.
Proof.
  unfold apply_mask. simpl.
  pose proof (is_mask_inRange (cv2_cvtColor bgr2hsv image) lower_bound upper_bound) as Hm.
  assert (shape (cv2_inRange (cv2_cvtColor bgr2hsv image) lower_bound upper_bound)
          = shape image) as Hs.
  { unfold cv2_inRange, cv2_cvtColor. by rewrite !shape_fmap. }
  destruct (1 <? kernel_size); [| done].
  destruct (morphologyEx_mask _ MORPH_OPEN kernel_size Hm) as [Hm1 Hs1].
  destruct (morphologyEx_mask _ MORPH_CLOSE kernel_size Hm1) as [Hm2 Hs2].
  split; [exact Hm2 |].
  etrans; [exact Hs2 |]. etrans; [exact Hs1 | exact Hs].
Qed.

(** C1. Whatever the frame, the bounds and the kernel size, the mask and
    the result that [apply_mask] returns have the dimensions of the frame,
    and at every pixel of the frame either the mask is 255 and the result
    is the frame's pixel, or the mask is 0 and the result is black. *)
Theorem apply_mask_result bgr2hsv image lower_bound upper_bound kernel_size i j p
    (Hp : pixel_at image i j = Some p) :
  let mask := (apply_mask bgr2hsv image lower_bound upper_bound kernel_size).1 in
  let result := (apply_mask bgr2hsv image lower_bound upper_bound kernel_size).2 in
  shape mask = shape image ∧ shape result = shape image ∧
  ((pixel_at mask i j = Some 255 ∧ pixel_at result i j = Some p) ∨
   (pixel_at mask i j = Some 0 ∧ pixel_at result i j = Some black)).
Proof.
  intros mask result.
  destruct (apply_mask_mask bgr2hsv image lower_bound upper_bound kernel_size)
    as [Hmask Hshape].
  fold mask in Hmask, Hshape.
  assert (result = cv2_bitwise_and image image mask) as -> by reflexivity.
  split; [done |]. split; [by apply shape_bitwise_and |].
  destruct (pixel_at_same_shape image mask i j p Hshape Hp) as [v Hv].
  rewrite (pixel_at_bitwise_and image mask i j p v Hp Hv), Hv.
  destruct (is_mask_pixel mask i j v Hmask Hv) as [-> | ->]; auto.
Qed.

Lemma apply_mask_result_witness :
  let mask := (apply_mask value_only (uniform 3 3 (Px 200 180 40))
                 [0; 0; 100] [179; 255; 255] 3).1 in
  let result := (apply_mask value_only (uniform 3 3 (Px 200 180 40))
                   [0; 0; 100] [179; 255; 255] 3).2 in
  shape mask = shape (uniform 3 3 (Px 200 180 40)) ∧
  shape result = shape (uniform 3 3 (Px 200 180 40)) ∧
  ((pixel_at mask 1 1 = Some 255 ∧ pixel_at result 1 1 = Some (Px 200 180 40)) ∨
   (pixel_at mask 1 1 = Some 0 ∧ pixel_at result 1 1 = Some black)).
Proof.
  apply (apply_mask_result value_only (uniform 3 3 (Px 200 180 40))
           [0; 0; 100] [179; 255; 255] 3 1 1 (Px 200 180 40)).
  reflexivity.
Defined.

(** ** Worked examples *)

(** Without denoising the mask of [two_tone] keeps its two bright pixels;
    a kernel of side 3 erodes them away. *)
Example apply_mask_two_tone :
  apply_mask value_only two_tone [0; 0; 100] [179; 255; 255] 1
    = ([[255; 0]; [0; 255]],
       [[Px 200 180 40; black]; [black; Px 200 180 40]]) ∧
  apply_mask value_only two_tone [0; 0; 100] [179; 255; 255] 3
    = ([[0; 0]; [0; 0]], [[black; black]; [black; black]]).
Proof. split; reflexivity. Qed.

(** Opening removes an isolated speck; closing leaves it in place. *)
Example morphologyEx_speck :
  let speck := [[0; 0; 0; 0; 0]; [0; 0; 0; 0; 0]; [0; 0; 255; 0; 0];
                [0; 0; 0; 0; 0]; [0; 0; 0; 0; 0]] in
  cv2_morphologyEx speck MORPH_OPEN 3 = mk_image 5 5 (λ _ _, 0) ∧
  cv2_morphologyEx speck MORPH_CLOSE 3 = speck.
Proof. split; reflexivity. Qed.

(** Crossed sliders are put in order. *)
Example get_trackbar_values_crossed :
  get_trackbar_values crossed_sliders "Tracking" = ([30; 100; 50], [120; 200; 255]).
Proof. reflexivity. Qed.

(** The scaled dimension follows the doubles: [49 * (512 / 49.0)] truncates
    to 511, [3 * (512 / 3.0)] to 512, and a source of width 0 divides by
    zero. *)
Example scaled_dim_values :
  scaled_dim 49 512 49 = Ok 511 ∧
  scaled_dim 3 512 3 = Ok 512 ∧
  scaled_dim 2 2 4 = Ok 1 ∧
  scaled_dim 1 512 0 = Raise ZeroDivisionError.
Proof. repeat split; vm_compute; reflexivity. Qed.

(** An image too flat for the working width cannot be resized: the height
    truncates to 0 and [cv2.resize] fails. *)
Example resize_with_aspect_ratio_flat :
  resize_with_aspect_ratio nearest (uniform 1 1024 black) (Some 512) None
    = Raise CvError.
Proof. vm_compute. reflexivity. Qed.

(** ** Further properties of the parameter normalization *)

Lemma lor_1_cases (v : Z) : Z.lor v 1 = if Z.odd v then v else v + 1.
Proof.
  destruct (Z.odd v) eqn:Hodd.
  - by apply lor_1_of_odd.
  - apply lor_1_of_even. by rewrite <- Z.negb_odd, Hodd.
Qed.

(** X1. Normalizing a kernel size twice is normalizing it once. *)
Theorem get_valid_kernel_size_idempotent (v : Z) :
  get_valid_kernel_size (get_valid_kernel_size v) = get_valid_kernel_size v.
Proof.
  unfold get_valid_kernel_size.
  assert (Z.odd (Z.max 1 (Z.lor v 1)) = true) as Hodd.
  { destruct (Z.max_spec 1 (Z.lor v 1)) as [[_ ->] | [_ ->]];
      [apply lor_1_odd | reflexivity]. }
  rewrite (lor_1_of_odd _ Hodd). lia.
Qed.

(** X2. The kernel sizes that normalization leaves unchanged are exactly
    the odd integers that are at least 1. *)
Theorem get_valid_kernel_size_fixed_iff (v : Z) :
  get_valid_kernel_size v = v ↔ Z.odd v = true ∧ 1 ≤ v.
Proof.
  unfold get_valid_kernel_size. rewrite lor_1_cases.
  destruct (Z.odd v) eqn:Hodd; split.
  - intros Hfix. split; [done | lia].
  - intros [_ Hpos]. lia.
  - intros Hfix.
    assert (v = 1) as -> by lia. discriminate Hodd.
  - intros [? _]. done.
Qed.

Lemma get_valid_kernel_size_fixed_iff_witness :
  get_valid_kernel_size 7 = 7 ∧ (Z.odd 7 = true ∧ 1 ≤ 7).
Proof.
  assert (Z.odd 7 = true ∧ 1 ≤ 7) as H by (split; [reflexivity | lia]).
  split; [| exact H].
  exact (proj2 (get_valid_kernel_size_fixed_iff 7) H).
Defined.

(** X3. The normalized size is the nearest odd size from above: an input
    of at least 1 is kept or raised by one, and an input below 1 gives 1. *)
Theorem get_valid_kernel_size_nearest (v : Z) :
  (1 ≤ v → v ≤ get_valid_kernel_size v ≤ v + 1) ∧
  (v ≤ 0 → get_valid_kernel_size v = 1).
Proof.
  unfold get_valid_kernel_size. rewrite lor_1_cases.
  destruct (Z.odd v); split; intros Hv; lia.
Qed.

Lemma get_valid_kernel_size_nearest_witness :
  6 ≤ get_valid_kernel_size 6 ≤ 6 + 1 ∧ get_valid_kernel_size (-4) = 1.
Proof.
  split.
  - apply (proj1 (get_valid_kernel_size_nearest 6)). lia.
  - apply (proj2 (get_valid_kernel_size_nearest (-4))). lia.
Defined.

(** X4. Normalization keeps the order of kernel sizes. *)
Theorem get_valid_kernel_size_monotone (v w : Z) (Hvw : v ≤ w) :
  get_valid_kernel_size v ≤ get_valid_kernel_size w.
Proof.
  unfold get_valid_kernel_size. rewrite !lor_1_cases.
  destruct (Z.eq_dec v w) as [-> | Hne]; [lia |].
  destruct (Z.odd v), (Z.odd w); lia.
Qed.

Lemma get_valid_kernel_size_monotone_witness :
  get_valid_kernel_size 4 ≤ get_valid_kernel_size 9.
Proof. apply (get_valid_kernel_size_monotone 4 9). lia. Defined.

(** X5. Each channel of the pair of bounds holds the two readings of that
    channel, exchanged when the lower one is the greater: bounds that are
    already in order come back unchanged and no value is invented. *)
Theorem normalize_bounds_channels (l_h l_s l_v u_h u_s u_v : Z) :
  ∃ lh ls lv uh us uv,
    normalize_bounds (l_h, l_s, l_v) (u_h, u_s, u_v) = ([lh; ls; lv], [uh; us; uv]) ∧
    (if l_h <=? u_h then lh = l_h ∧ uh = u_h else lh = u_h ∧ uh = l_h) ∧
    (if l_s <=? u_s then ls = l_s ∧ us = u_s else ls = u_s ∧ us = l_s) ∧
    (if l_v <=? u_v then lv = l_v ∧ uv = u_v else lv = u_v ∧ uv = l_v).
Proof.
  do 6 eexists. split; [reflexivity |].
  repeat split; case_match; lia.
Qed.

(** ** Properties of the windows and the trackbars *)

Lemma create_trackbars_window window_name gui :
  gui !! window_name = None →
  create_trackbars window_name gui !! window_name
  = Some (Window (<[WND_PROP_TOPMOST := 1]> ∅)
            (<["UV" := (255, 255)]> (<["US" := (255, 255)]> (<["UH" := (179, 179)]>
             (<["LV" := (50, 255)]> (<["LS" := (50, 255)]> (<["LH" := (0, 179)]> ∅))))))).
Proof.
  intros Hfresh.
  unfold create_trackbars, cv2_createTrackbar, cv2_setWindowProperty, cv2_namedWindow.
  rewrite Hfresh, !lookup_alter_eq, lookup_insert_eq. reflexivity.
Qed.

(** X6. On a name that is not yet a window, [create_trackbars] leaves the
    sliders at their defaults: reading them back with
    [get_trackbar_values] gives the lower bound (0, 50, 50) and the upper
    bound (179, 255, 255); the window is topmost and every other window is
    as it was. *)
Theorem create_trackbars_defaults window_name gui
    (Hfresh : gui !! window_name = None) :
  get_trackbar_values (cv2_getTrackbarPos (create_trackbars window_name gui)) window_name
    = ([0; 50; 50], [179; 255; 255]) ∧
  (∃ w, create_trackbars window_name gui !! window_name = Some w ∧
        props w !! WND_PROP_TOPMOST = Some 1) ∧
  ∀ other, other ≠ window_name →
    create_trackbars window_name gui !! other = gui !! other.
Proof.
  pose proof (create_trackbars_window window_name gui Hfresh) as Hw.
  split; [| split].
  - unfold get_trackbar_values, cv2_getTrackbarPos. rewrite Hw. reflexivity.
  - eexists. split; [exact Hw | reflexivity].
  - intros other Hother.
    unfold create_trackbars, cv2_createTrackbar, cv2_setWindowProperty, cv2_namedWindow.
    rewrite Hfresh, !lookup_alter_ne, lookup_insert_ne by done. reflexivity.
Qed.

Lemma create_trackbars_defaults_witness :
  get_trackbar_values (cv2_getTrackbarPos (create_trackbars "Tracking" ∅)) "Tracking"
    = ([0; 50; 50], [179; 255; 255]) ∧
  (∃ w, create_trackbars "Tracking" ∅ !! "Tracking" = Some w ∧
        props w !! WND_PROP_TOPMOST = Some 1) ∧
  ∀ other, other ≠ "Tracking" →
    create_trackbars "Tracking" ∅ !! other = (∅ : gmap string window) !! other.
Proof. apply (create_trackbars_defaults "Tracking" ∅). reflexivity. Defined.

Lemma namedWindow_topmost_lookup name gui k :
  cv2_setWindowProperty name WND_PROP_TOPMOST 1 (cv2_namedWindow name gui) !! k
  = if decide (name = k)
    then Some (Window (<[WND_PROP_TOPMOST := 1]> (from_option props ∅ (gui !! name)))
                 (from_option trackbars ∅ (gui !! name)))
    else gui !! k.
Proof.
  unfold cv2_setWindowProperty, cv2_namedWindow.
  destruct (decide (name = k)) as [<- | Hne].
  - rewrite lookup_alter_eq.
    destruct (gui !! name) as [w |] eqn:Hw; [by rewrite Hw |].
    by rewrite lookup_insert_eq.
  - rewrite lookup_alter_ne by done.
    destruct (gui !! name); [done |]. by rewrite lookup_insert_ne.
Qed.

(** X7. [create_display_windows] accepts the modes "img" and "video" only:
    any other mode raises [ValueError] and leaves the windows as they
    were.  On either mode the windows "Mask", "Result" and "Original"
    exist afterwards and are topmost, their trackbars are kept, and every
    other window is as it was. *)
Theorem create_display_windows_modes input_type gui :
  (input_type ≠ "img" → input_type ≠ "video" →
   create_display_windows input_type gui = (Raise ValueError, gui)) ∧
  (input_type = "img" ∨ input_type = "video" →
   (create_display_windows input_type gui).1 = Ok tt ∧
   (∀ name, name ∈ ["Mask"; "Result"; "Original"] →
      ∃ w, (create_display_windows input_type gui).2 !! name = Some w ∧
           props w !! WND_PROP_TOPMOST = Some 1 ∧
           trackbars w = from_option trackbars ∅ (gui !! name)) ∧
   (∀ other, other ∉ ["Mask"; "Result"; "Original"] →
      (create_display_windows input_type gui).2 !! other = gui !! other)).
Proof.
  unfold create_display_windows. split.
  - intros Himg Hvideo.
    rewrite bool_decide_eq_false_2; [done |].
    rewrite !elem_of_cons, elem_of_nil. intros [? | [? | []]]; done.
  - intros Hmode.
    rewrite bool_decide_eq_true_2
      by (rewrite !elem_of_cons; destruct Hmode; auto).
    simpl. split; [done |]. split.
    + intros name Hname.
      rewrite !elem_of_cons, elem_of_nil in Hname.
      destruct Hname as [-> | [-> | [-> | []]]];
        repeat (rewrite namedWindow_topmost_lookup; simpl);
        eexists; (split; [reflexivity |]); split; try reflexivity;
        apply lookup_insert_eq.
    + intros other Hother.
      rewrite !not_elem_of_cons in Hother.
      destruct Hother as (? & ? & ? & _).
      rewrite !namedWindow_topmost_lookup.
      repeat (case_decide; [congruence |]). done.
Qed.

Lemma create_display_windows_modes_witness :
  create_display_windows "audio" ∅ = (Raise ValueError, ∅) ∧
  (create_display_windows "video" ∅).1 = Ok tt.
Proof.
  split.
  - apply (proj1 (create_display_windows_modes "audio" ∅)); discriminate.
  - apply (proj2 (create_display_windows_modes "video" ∅)). right. reflexivity.
Defined.

(** ** Further properties of the display *)

(** X8. [display_results] writes to the surfaces "Original", "Mask" and
    "Result" only, and with no buffer given it writes to none. *)
Theorem display_results_other_surfaces {A : Type}
    (original mask result frame : option A) (surfaces : gmap string A) (k : string)
    (Hk : k ∉ ["Original"; "Mask"; "Result"]) :
  display_results original mask result frame surfaces !! k = surfaces !! k ∧
  display_results None None None None surfaces = surfaces.
Proof.
  split; [| reflexivity].
  rewrite !not_elem_of_cons in Hk. destruct Hk as (? & ? & ? & _).
  unfold display_results, cv2_imshow.
  destruct frame, original, mask, result; by simplify_map_eq.
Qed.

Lemma display_results_other_surfaces_witness :
  display_results (Some 1%nat) (Some 2%nat) None None {[ "Tracking" := 7%nat ]} !! "Tracking"
    = ({[ "Tracking" := 7%nat ]} : gmap string nat) !! "Tracking" ∧
  display_results None None None None ({[ "Tracking" := 7%nat ]} : gmap string nat)
    = {[ "Tracking" := 7%nat ]}.
Proof.
  apply (display_results_other_surfaces (Some 1%nat) (Some 2%nat) None None
           {[ "Tracking" := 7%nat ]} "Tracking").
  rewrite !not_elem_of_cons. repeat split; [discriminate .. | apply not_elem_of_nil].
Defined.

(** X9. The surfaces "Mask" and "Result" show the mask and the result that
    are given, whatever the other arguments, and keep what they showed
    when the argument is [None]. *)
Theorem display_results_mask_result {A : Type}
    (original mask result frame : option A) (surfaces : gmap string A) :
  display_results original mask result frame surfaces !! "Mask"
    = from_option Some (surfaces !! "Mask") mask ∧
  display_results original mask result frame surfaces !! "Result"
    = from_option Some (surfaces !! "Result") result.
Proof.
  unfold display_results, cv2_imshow.
  destruct frame, original, mask, result; by simplify_map_eq.
Qed.

(** ** Further properties of the loaders *)

#[local] Arguments resize_with_aspect_ratio : simpl never.
#[local] Arguments scaled_dim : simpl never.
#[local] Arguments cv2_resize : simpl never.

Lemma has_video_extension_join (name : string) :
  has_video_extension (os_path_join "videos" name) = has_video_extension name.
Proof.
  destruct name as [| c name']; [reflexivity |].
  destruct c as [[] [] [] [] [] [] [] []]; reflexivity.
Qed.

(** What [check_file_access] raises on a path that exists. *)
Lemma check_file_access_present fs path f :
  fs !! path = Some f →
  check_file_access fs path =
    if negb (is_file f) then Raise ValueError
    else if negb (readable f) then Raise PermissionError
    else Ok tt.
Proof. intros Hf. unfold check_file_access. by rewrite Hf. Qed.

(** A string that ends with a non-empty suffix ends with the suffix's last
    character. *)
Lemma endswith_last_char (s : string) c e :
  endswith s (String c e) = true → last_char s = last_char (String c e).
Proof.
  induction s as [| a s' IH]; [discriminate |].
  cbn [endswith]. intros [Heq | Hrest]%orb_true_iff.
  - apply String.eqb_eq in Heq. by rewrite Heq.
  - destruct s' as [| b s'']; [discriminate |].
    rewrite <- (IH Hrest). reflexivity.
Qed.

Lemma has_image_extension_last path :
  has_image_extension path = true →
  last_char (lower path) = Some "g"%char ∨
  last_char (lower path) = Some "p"%char ∨
  last_char (lower path) = Some "f"%char.
Proof.
  unfold has_image_extension, valid_extensions. cbn [existsb].
  rewrite !orb_true_iff.
  intros [H | [H | [H | [H | [H | [H | []%Bool.diff_false_true]]]]]];
    apply endswith_last_char in H; rewrite H; cbn; auto.
Qed.

Lemma has_video_extension_last path :
  has_video_extension path = true →
  last_char (lower path) = Some "4"%char ∨
  last_char (lower path) = Some "i"%char ∨
  last_char (lower path) = Some "v"%char.
Proof.
  unfold has_video_extension, valid_video_extensions. cbn [existsb].
  rewrite !orb_true_iff.
  intros [H | [H | [H | [H | [H | [H | []%Bool.diff_false_true]]]]]];
    apply endswith_last_char in H; rewrite H; cbn; auto.
Qed.

(** No name has both an image extension and a video extension. *)
Lemma image_extension_not_video path :
  has_image_extension path = true → has_video_extension path = false.
Proof.
  intros Himg. destruct (has_video_extension path) eqn:Hvid; [| done].
  apply has_image_extension_last in Himg.
  apply has_video_extension_last in Hvid.
  destruct Himg as [Hi | [Hi | Hi]], Hvid as [Hv | [Hv | Hv]];
    rewrite Hi in Hv; discriminate Hv.
Qed.

(** What [load_image] does on a readable regular file with an image
    extension. *)
Lemma load_image_readable inter fs name f :
  fs !! os_path_join "images" name = Some f →
  is_file f = true → readable f = true → has_image_extension name = true →
  load_image inter fs name =
    try_except
      (match decoded f with
       | None => Raise ValueError
       | Some img =>
           if img_size img =? 0 then Raise ValueError
           else resize_with_aspect_ratio inter img (Some 512) None
       end)
      (λ e, Raise RuntimeError).
Proof.
  intros Hf Hfile Hread Hext. unfold load_image.
  rewrite (check_file_access_ok _ _ _ Hf Hfile Hread). simpl.
  rewrite has_image_extension_join, Hext. simpl.
  unfold cv2_imread. by rewrite Hf.
Qed.

(** X10. A name that [load_image] loads is never loaded by [load_video]:
    where the name is a readable regular file under the videos root,
    [load_video] raises [ValueError], since no name has both an image and
    a video extension. *)
Theorem load_image_name_not_video inter can_open fs fs' name img f
    (Himg : load_image inter fs name = Ok img)
    (Hf : fs' !! os_path_join "videos" name = Some f)
    (Hfile : is_file f = true) (Hread : readable f = true) :
  has_video_extension name = false ∧
  load_video can_open fs' name = Raise ValueError.
Proof.
  assert (has_image_extension name = true) as Hext.
  { unfold load_image in Himg.
    destruct (check_file_access _ _); [| done]. simpl in Himg.
    rewrite has_image_extension_join in Himg.
    by destruct (has_image_extension name). }
  pose proof (image_extension_not_video name Hext) as Hvid.
  split; [done |].
  unfold load_video.
  rewrite (check_file_access_ok _ _ _ Hf Hfile Hread). simpl.
  by rewrite has_video_extension_join, Hvid.
Qed.

Lemma load_image_name_not_video_witness :
  has_video_extension "strip.png" = false ∧
  load_video opens_all fs_media "strip.png" = Raise ValueError.
Proof.
  apply (load_image_name_not_video nearest opens_all fs_media fs_media "strip.png"
           (mk_image 1 512 (nearest (uniform 1 512 (Px 10 20 30)) (512, 1)))
           (File true true None)).
  - vm_compute. reflexivity.
  - reflexivity.
  - reflexivity.
  - reflexivity.
Defined.

(** X11. The exceptions that leave [load_image] are [FileNotFoundError],
    [ValueError], [PermissionError] and [RuntimeError]: no [cv2.error] and
    no arithmetic error of the resampler escapes it. *)
Theorem load_image_raises_only inter fs name e
    (He : load_image inter fs name = Raise e) :
  e = FileNotFoundError ∨ e = ValueError ∨ e = PermissionError ∨ e = RuntimeError.
Proof.
  unfold load_image, check_file_access in He.
  destruct (fs !! os_path_join "images" name) as [f |]; simpl in He;
    [| injection He as <-; auto].
  destruct (is_file f); simpl in He; [| injection He as <-; auto].
  destruct (readable f); simpl in He; [| injection He as <-; auto].
  destruct (has_image_extension _); simpl in He; [| injection He as <-; auto].
  unfold try_except in He.
  destruct (match cv2_imread _ _ with Some _ => _ | None => _ end);
    [done | injection He as <-; auto].
Qed.

Lemma load_image_raises_only_witness :
  PermissionError = FileNotFoundError ∨ PermissionError = ValueError ∨
  PermissionError = PermissionError ∨ PermissionError = RuntimeError.
Proof.
  apply (load_image_raises_only nearest fs_media "secret.png" PermissionError).
  reflexivity.
Defined.

(** X12. An image that [load_image] returns comes from a path under the
    images root that exists, is a regular file, is readable, has an image
    extension and decodes to a buffer that is not empty; the image
    returned is not empty either. *)
Theorem load_image_success inter fs name out
    (Hout : load_image inter fs name = Ok out) :
  ∃ f src, fs !! os_path_join "images" name = Some f ∧
    is_file f = true ∧ readable f = true ∧
    has_image_extension name = true ∧
    decoded f = Some src ∧ img_size src ≠ 0 ∧
    0 < img_height out ∧ 0 < img_width out.
Proof.
  unfold load_image, check_file_access, cv2_imread in Hout.
  destruct (fs !! os_path_join "images" name) as [f |] eqn:Hf; [| done].
  simpl in Hout.
  destruct (is_file f) eqn:Hfile; [| done].
  destruct (readable f) eqn:Hread; [| done]. simpl in Hout.
  rewrite has_image_extension_join in Hout.
  destruct (has_image_extension name) eqn:Hext; [| done]. simpl in Hout.
  destruct (decoded f) as [src |] eqn:Hdec; [| done].
  destruct (img_size src =? 0) eqn:Hsize; [done |].
  apply Z.eqb_neq in Hsize.
  exists f, src. do 6 (split; [done |]).
  rewrite resize_with_aspect_ratio_width in Hout.
  destruct (scaled_dim _ _ _) as [dh |]; [| done]. simpl in Hout.
  destruct (cv2_resize _ _ _) as [out' |] eqn:Hresize; [| done].
  simpl in Hout. injection Hout as <-.
  pose proof Hresize as Hdims. apply cv2_resize_dims in Hdims as [-> ->].
  unfold cv2_resize in Hresize.
  destruct (_ || _); [done |].
  destruct ((512 <=? 0) || (dh <=? 0) || _ || _) eqn:Hbad; [done |].
  repeat (apply orb_false_elim in Hbad as [Hbad ?]). lia.
Qed.

Lemma load_image_success_witness :
  ∃ f src, fs_media !! os_path_join "images" "strip.png" = Some f ∧
    is_file f = true ∧ readable f = true ∧
    has_image_extension "strip.png" = true ∧
    decoded f = Some src ∧ img_size src ≠ 0 ∧
    0 < img_height (mk_image 1 512 (nearest (uniform 1 512 (Px 10 20 30)) (512, 1))) ∧
    0 < img_width (mk_image 1 512 (nearest (uniform 1 512 (Px 10 20 30)) (512, 1))).
Proof.
  apply (load_image_success nearest fs_media "strip.png").
  vm_compute. reflexivity.
Defined.

(** X13. Both loaders check the file before its extension: a path that
    exists but is not a regular file raises [ValueError], and a regular
    file that may not be read raises [PermissionError], whatever the
    extension and the content. *)
Theorem loaders_check_file_first inter can_open fs name f :
  (fs !! os_path_join "images" name = Some f → is_file f = false →
   load_image inter fs name = Raise ValueError) ∧
  (fs !! os_path_join "images" name = Some f → is_file f = true →
   readable f = false → load_image inter fs name = Raise PermissionError) ∧
  (fs !! os_path_join "videos" name = Some f → is_file f = false →
   load_video can_open fs name = Raise ValueError) ∧
  (fs !! os_path_join "videos" name = Some f → is_file f = true →
   readable f = false → load_video can_open fs name = Raise PermissionError).
Proof.
  unfold load_image, load_video.
  repeat split; intros Hf Hfile; try intros Hread;
    rewrite (check_file_access_present _ _ _ Hf), Hfile; try rewrite Hread; done.
Qed.

Lemma loaders_check_file_first_witness :
  load_image nearest fs_media "album.png" = Raise ValueError ∧
  load_image nearest fs_media "secret.png" = Raise PermissionError.
Proof.
  split.
  - apply (proj1 (loaders_check_file_first nearest opens_all fs_media "album.png"
                    (File false true None))); reflexivity.
  - apply (proj1 (proj2 (loaders_check_file_first nearest opens_all fs_media "secret.png"
                    (File true false None)))); reflexivity.
Defined.

(** X14. For a readable regular file with a video extension that the
    backend does not open, [load_video] raises [RuntimeError]: the
    [ValueError] raised inside the [try] is caught by its
    [except Exception]. *)
Theorem load_video_unopenable can_open fs name f
    (Hf : fs !! os_path_join "videos" name = Some f)
    (Hfile : is_file f = true) (Hread : readable f = true)
    (Hext : has_video_extension name = true)
    (Hopen : can_open (os_path_join "videos" name) = false) :
  load_video can_open fs name = Raise RuntimeError.
Proof.
  unfold load_video.
  rewrite (check_file_access_ok _ _ _ Hf Hfile Hread). simpl.
  rewrite has_video_extension_join, Hext. simpl.
  by rewrite Hopen.
Qed.

Lemma load_video_unopenable_witness :
  load_video opens_none fs_media "clip.mp4" = Raise RuntimeError.
Proof.
  apply (load_video_unopenable opens_none fs_media "clip.mp4" (File true true None));
    reflexivity.
Defined.

(** X15. For a name of ASCII characters, [load_video] returns a capture
    exactly for a readable regular file under the videos root with a video
    extension that the backend opens, and the capture it returns is open
    on that path. *)
Theorem load_video_success can_open fs name cap
    (Hascii : is_ascii name = true) :
  load_video can_open fs name = Ok cap ↔
  (∃ f, fs !! os_path_join "videos" name = Some f ∧
        is_file f = true ∧ readable f = true) ∧
  has_video_extension name = true ∧
  can_open (os_path_join "videos" name) = true ∧
  cap = Capture (os_path_join "videos" name) true.
Proof.
  unfold load_video, check_file_access, cv2_VideoCapture.
  rewrite has_video_extension_join. split.
  - destruct (fs !! os_path_join "videos" name) as [f |] eqn:Hf; [| done].
    simpl.
    destruct (is_file f) eqn:Hfile; [| done].
    destruct (readable f) eqn:Hread; [| done]. simpl.
    destruct (has_video_extension name); [| done]. simpl.
    destruct (can_open _) eqn:Hopen; [| done]. simpl.
    intros [= <-]. eauto 10.
  - intros ((f & -> & -> & ->) & -> & Hopen & ->). simpl.
    by rewrite Hopen.
Qed.

Lemma load_video_success_witness :
  load_video opens_all fs_media "clip.mp4" = Ok (Capture "videos/clip.mp4" true).
Proof.
  apply (proj2 (load_video_success opens_all fs_media "clip.mp4"
                  (Capture "videos/clip.mp4" true) eq_refl)).
  split; [| split; [reflexivity | split; reflexivity]].
  exists (File true true None). split; [reflexivity | split; reflexivity].
Defined.

(** X16. [release_video] leaves no capture open: an open capture is
    closed, a closed one and [None] are left as they are, the capture's
    file is kept, and releasing twice is releasing once. *)
Theorem release_video_closed (cap : option capture) :
  release_video (release_video cap) = release_video cap ∧
  isOpened <$> release_video cap = (λ _, false) <$> cap ∧
  cap_filename <$> release_video cap = cap_filename <$> cap.
Proof.
  destruct cap as [[path []] |]; done.
Qed.

(** ** Further properties of the resampler *)

(** What [resize_with_aspect_ratio] does with [height] alone. *)
Lemma resize_with_aspect_ratio_height inter image height :
  resize_with_aspect_ratio inter image None (Some height) =
  dw ← scaled_dim (img_width image) height (img_height image);
  cv2_resize inter image (dw, height).
Proof.
  unfold resize_with_aspect_ratio, scaled_dim.
  destruct (py_float (img_height image)); [| done]. simpl.
  destruct (py_float height); [| done]. simpl.
  destruct (py_truediv _ _); [| done]. simpl.
  destruct (py_float (img_width image)); [| done]. simpl.
  done.
Qed.

(** A successful [cv2.resize] has a source that is not empty and a size
    within the positive C integers. *)
Lemma cv2_resize_ok inter src dw dh out :
  cv2_resize inter src (dw, dh) = Ok out →
  0 < img_height src ∧ 0 < img_width src ∧
  0 < dw ≤ INT_MAX ∧ 0 < dh ≤ INT_MAX.
Proof.
  unfold cv2_resize.
  destruct ((img_height src =? 0) || (img_width src =? 0)) eqn:Hsrc; [done |].
  destruct ((dw <=? 0) || (dh <=? 0) || (INT_MAX <? dw) || (INT_MAX <? dh))
    eqn:Hsize; [done |].
  intros _.
  apply orb_false_elim in Hsrc as [Hh Hw].
  repeat (apply orb_false_elim in Hsize as [Hsize ?]).
  unfold img_height, img_width in *. lia.
Qed.

(** X17. With [height] alone, an image that [resize_with_aspect_ratio]
    returns has the height asked for and the width
    [int(w * (height / float(h)))] of the source's [h] and [w]. *)
Theorem resize_with_aspect_ratio_height_only inter image (height : Z) out
    (Hout : resize_with_aspect_ratio inter image None (Some height) = Ok out) :
  img_height out = height ∧
  scaled_dim (img_width image) height (img_height image) = Ok (img_width out).
Proof.
  rewrite resize_with_aspect_ratio_height in Hout.
  destruct (scaled_dim _ _ _) as [dw |]; [| done]. simpl in Hout.
  apply cv2_resize_dims in Hout as [-> ->]. done.
Qed.

Lemma resize_with_aspect_ratio_height_only_witness :
  img_height (uniform 1 2 black) = 1 ∧
  scaled_dim (img_width (uniform 2 4 black)) 1 (img_height (uniform 2 4 black))
    = Ok (img_width (uniform 1 2 black)).
Proof.
  apply (resize_with_aspect_ratio_height_only nearest (uniform 2 4 black) 1).
  vm_compute. reflexivity.
Defined.

(** X18. Given a dimension, [resize_with_aspect_ratio] never returns an
    empty image and never resizes an empty one: on success the source and
    the result have at least one row and one column, and the result's
    sides fit a C int. *)
Theorem resize_with_aspect_ratio_nonempty inter image width height out
    (Hgiven : is_Some width ∨ is_Some height)
    (Hout : resize_with_aspect_ratio inter image width height = Ok out) :
  0 < img_height image ∧ 0 < img_width image ∧
  0 < img_height out ≤ INT_MAX ∧ 0 < img_width out ≤ INT_MAX.
Proof.
  destruct width as [width |].
  - rewrite resize_with_aspect_ratio_width in Hout.
    destruct (scaled_dim _ _ _) as [dh |]; [| done]. simpl in Hout.
    pose proof (cv2_resize_ok _ _ _ _ _ Hout) as (? & ? & ? & ?).
    apply cv2_resize_dims in Hout as [-> ->]. done.
  - destruct height as [height |].
    + rewrite resize_with_aspect_ratio_height in Hout.
      destruct (scaled_dim _ _ _) as [dw |]; [| done]. simpl in Hout.
      pose proof (cv2_resize_ok _ _ _ _ _ Hout) as (? & ? & ? & ?).
      apply cv2_resize_dims in Hout as [-> ->]. done.
    + destruct Hgiven as [[? [=]] | [? [=]]].
Qed.

Lemma resize_with_aspect_ratio_nonempty_witness :
  0 < img_height (uniform 2 4 black) ∧ 0 < img_width (uniform 2 4 black) ∧
  0 < img_height (uniform 1 2 black) ≤ INT_MAX ∧
  0 < img_width (uniform 1 2 black) ≤ INT_MAX.
Proof.
  apply (resize_with_aspect_ratio_nonempty nearest (uniform 2 4 black) (Some 2) None).
  - left. by exists 2.
  - vm_compute. reflexivity.
Defined.

(** X19. A source without columns cannot be scaled to a width, and a
    source without rows cannot be scaled to a height: the ratio divides by
    zero, and the call raises [ZeroDivisionError] (or the [OverflowError]
    of a target too large for a float). *)
Theorem resize_with_aspect_ratio_zero_division inter image (target : Z) height :
  (img_width image = 0 →
   resize_with_aspect_ratio inter image (Some target) height =
     (_ ← py_float target; Raise ZeroDivisionError)) ∧
  (img_height image = 0 →
   resize_with_aspect_ratio inter image None (Some target) =
     (_ ← py_float target; Raise ZeroDivisionError)).
Proof.
  unfold resize_with_aspect_ratio. split; intros ->; simpl;
    by destruct (py_float target).
Qed.

Lemma resize_with_aspect_ratio_zero_division_witness :
  resize_with_aspect_ratio nearest [[]; []] (Some 512) None = Raise ZeroDivisionError ∧
  resize_with_aspect_ratio nearest [] None (Some 512) = Raise ZeroDivisionError.
Proof.
  split.
  - apply (proj1 (resize_with_aspect_ratio_zero_division nearest [[]; []] 512 None)).
    reflexivity.
  - apply (proj2 (resize_with_aspect_ratio_zero_division nearest [] 512 None)).
    reflexivity.
Defined.

(** ** Morphology and the order on arrays *)

Lemma at_offset_of_nat {A} (m : grid A) (i j : nat) :
  at_offset m (Z.of_nat i) (Z.of_nat j) = pixel_at m i j.
Proof.
  unfold at_offset. rewrite !Nat2Z.id.
  assert ((0 <=? Z.of_nat i) && (0 <=? Z.of_nat j) = true) as ->; [| done].
  apply andb_true_iff. split; apply Z.leb_le; lia.
Qed.

Lemma at_offset_Some {A} (m : grid A) (y x : Z) v :
  at_offset m y x = Some v ↔
  ∃ i j, y = Z.of_nat i ∧ x = Z.of_nat j ∧ pixel_at m i j = Some v.
Proof.
  split.
  - unfold at_offset.
    destruct ((0 <=? y) && (0 <=? x)) eqn:Hpos; [| done].
    apply andb_true_iff in Hpos as [Hy%Z.leb_le Hx%Z.leb_le].
    intros Hv. exists (Z.to_nat y), (Z.to_nat x). split; [lia |]. split; [lia | done].
  - intros (i & j & -> & -> & Hv). by rewrite at_offset_of_nat.
Qed.

(** The samples under the kernel are the samples of the array at the
    positions within the kernel's reach. *)
Lemma neighbourhood_spec m ksize (i j : nat) v :
  v ∈ neighbourhood m ksize i j ↔
  ∃ i' j' : nat, pixel_at m i' j' = Some v ∧
    0 ≤ Z.of_nat i' - Z.of_nat i + ksize / 2 < ksize ∧
    0 ≤ Z.of_nat j' - Z.of_nat j + ksize / 2 < ksize.
Proof.
  unfold neighbourhood. split.
  - intros (di & (dj & Hv & Hdj)%list_elem_of_bind & Hdi)%list_elem_of_bind.
    apply elem_of_seqZ in Hdi, Hdj.
    destruct (at_offset m _ _) as [u |] eqn:Hu; simpl in Hv;
      [| by apply elem_of_nil in Hv].
    apply list_elem_of_singleton in Hv as ->.
    apply at_offset_Some in Hu as (i' & j' & Hi & Hj & Hu).
    exists i', j'. split; [done |]. lia.
  - intros (i' & j' & Hv & Hi & Hj).
    apply list_elem_of_bind.
    exists (Z.of_nat i' - Z.of_nat i + ksize / 2). split; [| apply elem_of_seqZ; lia].
    apply list_elem_of_bind.
    exists (Z.of_nat j' - Z.of_nat j + ksize / 2). split; [| apply elem_of_seqZ; lia].
    replace (Z.of_nat i + _ - _) with (Z.of_nat i') by lia.
    replace (Z.of_nat j + _ - _) with (Z.of_nat j') by lia.
    rewrite at_offset_of_nat, Hv. simpl. apply list_elem_of_singleton. done.
Qed.

(** For a kernel of side at least 1 the anchor lies under the kernel. *)
Lemma neighbourhood_self m ksize i j v :
  1 ≤ ksize → pixel_at m i j = Some v → v ∈ neighbourhood m ksize i j.
Proof.
  intros Hk Hv. apply neighbourhood_spec. exists i, j. split; [done |].
  assert (0 ≤ ksize / 2 < ksize) by (split; [apply Z.div_pos | apply Z.div_lt]; lia).
  lia.
Qed.

(** For a kernel of odd side the reach is symmetric. *)
Lemma reach_symmetric ksize (a b : Z) :
  Z.odd ksize = true →
  0 ≤ a - b + ksize / 2 < ksize → 0 ≤ b - a + ksize / 2 < ksize.
Proof.
  intros (h & ->)%Z.odd_spec.
  assert ((2 * h + 1) / 2 = h) as ->
    by (symmetry; apply (Z.div_unique (2 * h + 1) 2 h 1); lia).
  lia.
Qed.

Lemma foldr_min_lower (s : Z) (l : list Z) :
  foldr Z.min s l ≤ s ∧ ∀ x, x ∈ l → foldr Z.min s l ≤ x.
Proof.
  induction l as [| a l [IHs IHl]]; simpl.
  - split; [lia |]. intros x Hx. by apply elem_of_nil in Hx.
  - split; [lia |]. intros x [-> | Hx]%elem_of_cons; [lia |].
    specialize (IHl x Hx). lia.
Qed.

Lemma foldr_min_greatest (s b : Z) (l : list Z) :
  b ≤ s → (∀ x, x ∈ l → b ≤ x) → b ≤ foldr Z.min s l.
Proof.
  intros Hs. induction l as [| a l IH]; simpl; intros Hl; [done |].
  apply Z.min_glb.
  - apply Hl, elem_of_cons. auto.
  - apply IH. intros x Hx. apply Hl, elem_of_cons. auto.
Qed.

Lemma foldr_max_upper (s : Z) (l : list Z) :
  s ≤ foldr Z.max s l ∧ ∀ x, x ∈ l → x ≤ foldr Z.max s l.
Proof.
  induction l as [| a l [IHs IHl]]; simpl.
  - split; [lia |]. intros x Hx. by apply elem_of_nil in Hx.
  - split; [lia |]. intros x [-> | Hx]%elem_of_cons; [lia |].
    specialize (IHl x Hx). lia.
Qed.

Lemma foldr_max_least (s b : Z) (l : list Z) :
  s ≤ b → (∀ x, x ∈ l → x ≤ b) → foldr Z.max s l ≤ b.
Proof.
  intros Hs. induction l as [| a l IH]; simpl; intros Hl; [done |].
  apply Z.max_lub.
  - apply Hl, elem_of_cons. auto.
  - apply IH. intros x Hx. apply Hl, elem_of_cons. auto.
Qed.

Lemma pixel_at_erode m ksize i j :
  pixel_at (cv2_erode m ksize) i j
  = (λ _, foldr Z.min 255 (neighbourhood m ksize i j)) <$> pixel_at m i j.
Proof.
  unfold pixel_at, cv2_erode. rewrite list_lookup_imap.
  destruct (m !! i) as [row |]; simpl; [| done].
  by rewrite list_lookup_imap.
Qed.

Lemma pixel_at_dilate m ksize i j :
  pixel_at (cv2_dilate m ksize) i j
  = (λ _, foldr Z.max 0 (neighbourhood m ksize i j)) <$> pixel_at m i j.
Proof.
  unfold pixel_at, cv2_dilate. rewrite list_lookup_imap.
  destruct (m !! i) as [row |]; simpl; [| done].
  by rewrite list_lookup_imap.
Qed.

Lemma pixel_at_erode_Some m ksize i j v :
  pixel_at (cv2_erode m ksize) i j = Some v ↔
  is_Some (pixel_at m i j) ∧ v = foldr Z.min 255 (neighbourhood m ksize i j).
Proof.
  rewrite pixel_at_erode. destruct (pixel_at m i j); simpl; split.
  - intros [= <-]. eauto.
  - by intros [_ ->].
  - done.
  - by intros [[? [=]] _].
Qed.

Lemma pixel_at_dilate_Some m ksize i j v :
  pixel_at (cv2_dilate m ksize) i j = Some v ↔
  is_Some (pixel_at m i j) ∧ v = foldr Z.max 0 (neighbourhood m ksize i j).
Proof.
  rewrite pixel_at_dilate. destruct (pixel_at m i j); simpl; split.
  - intros [= <-]. eauto.
  - by intros [_ ->].
  - done.
  - by intros [[? [=]] _].
Qed.

(** Arrays of one shape with the same samples are equal. *)
Lemma grid_ext {A} (a b : grid A) :
  shape a = shape b → (∀ i j, pixel_at a i j = pixel_at b i j) → a = b.
Proof.
  unfold shape. intros Hshape Hpx. apply list_eq. intros i.
  assert ((length <$> a) !! i = (length <$> b) !! i) as Hi by by rewrite Hshape.
  rewrite !list_lookup_fmap in Hi.
  destruct (a !! i) as [ra |] eqn:Ha, (b !! i) as [rb |] eqn:Hb; simplify_eq/=;
    [| done].
  f_equal. apply list_eq. intros j.
  specialize (Hpx i j). unfold pixel_at in Hpx. by rewrite Ha, Hb in Hpx.
Qed.

Lemma grid_le_refl m : grid_le m m.
Proof. split; [done |]. intros i j x y Hx Hy. rewrite Hx in Hy. injection Hy as ->. lia. Qed.

Lemma grid_le_trans a b c : grid_le a b → grid_le b c → grid_le a c.
Proof.
  intros [Hab Hle1] [Hbc Hle2]. split; [congruence |].
  intros i j x z Hx Hz.
  destruct (pixel_at_same_shape a b i j x (eq_sym Hab) Hx) as [y Hy].
  specialize (Hle1 i j x y Hx Hy). specialize (Hle2 i j y z Hy Hz). lia.
Qed.

Lemma grid_le_antisym a b : grid_le a b → grid_le b a → a = b.
Proof.
  intros [Hab Hle1] [_ Hle2]. apply grid_ext; [done |].
  intros i j.
  destruct (pixel_at a i j) as [x |] eqn:Hx.
  - destruct (pixel_at_same_shape a b i j x (eq_sym Hab) Hx) as [y Hy].
    rewrite Hy. f_equal.
    specialize (Hle1 i j x y Hx Hy). specialize (Hle2 i j y x Hy Hx). lia.
  - destruct (pixel_at b i j) as [y |] eqn:Hy; [| done].
    destruct (pixel_at_same_shape b a i j y Hab Hy) as [x Hx']. congruence.
Qed.

Lemma is_uint8_pixel m i j v :
  is_uint8 m → pixel_at m i j = Some v → 0 ≤ v ≤ 255.
Proof.
  intros Hm (row & Hrow & Hv)%pixel_at_Some.
  eapply Forall_lookup_1 in Hm; [| exact Hrow].
  eapply Forall_lookup_1 in Hm; [| exact Hv]. exact Hm.
Qed.

Lemma is_uint8_intro m :
  (∀ i j v, pixel_at m i j = Some v → 0 ≤ v ≤ 255) → is_uint8 m.
Proof.
  intros Hpx. apply Forall_lookup_2. intros i row Hrow.
  apply Forall_lookup_2. intros j v Hv.
  apply (Hpx i j). apply pixel_at_Some. eauto.
Qed.

Lemma is_mask_uint8 m : is_mask m → is_uint8 m.
Proof.
  intros Hm. apply is_uint8_intro. intros i j v Hv.
  destruct (is_mask_pixel m i j v Hm Hv); lia.
Qed.

Lemma neighbourhood_uint8 m ksize i j x :
  is_uint8 m → x ∈ neighbourhood m ksize i j → 0 ≤ x ≤ 255.
Proof.
  intros Hm (i' & j' & Hx & _)%neighbourhood_spec. by eapply is_uint8_pixel.
Qed.

Lemma is_uint8_erode m ksize : is_uint8 m → is_uint8 (cv2_erode m ksize).
Proof.
  intros Hm. apply is_uint8_intro. intros i j v [_ ->]%pixel_at_erode_Some.
  split.
  - apply foldr_min_greatest; [lia |].
    intros x Hx. by apply (neighbourhood_uint8 m ksize i j x Hm).
  - apply (proj1 (foldr_min_lower 255 _)).
Qed.

Lemma is_uint8_dilate m ksize : is_uint8 m → is_uint8 (cv2_dilate m ksize).
Proof.
  intros Hm. apply is_uint8_intro. intros i j v [_ ->]%pixel_at_dilate_Some.
  split.
  - apply (proj1 (foldr_max_upper 0 _)).
  - apply foldr_max_least; [lia |].
    intros x Hx. by apply (neighbourhood_uint8 m ksize i j x Hm).
Qed.

Lemma erode_le m ksize : 1 ≤ ksize → grid_le (cv2_erode m ksize) m.
Proof.
  intros Hk. split; [apply shape_erode |].
  intros i j x y [_ ->]%pixel_at_erode_Some Hy.
  apply (proj2 (foldr_min_lower _ _)). by apply neighbourhood_self.
Qed.

Lemma dilate_ge m ksize : 1 ≤ ksize → grid_le m (cv2_dilate m ksize).
Proof.
  intros Hk. split; [symmetry; apply shape_dilate |].
  intros i j x y Hx [_ ->]%pixel_at_dilate_Some.
  apply (proj2 (foldr_max_upper _ _)). by apply neighbourhood_self.
Qed.

Lemma erode_monotone a b ksize :
  grid_le a b → grid_le (cv2_erode a ksize) (cv2_erode b ksize).
Proof.
  intros [Hshape Hle]. split; [by rewrite !shape_erode |].
  intros i j x y [_ ->]%pixel_at_erode_Some [_ ->]%pixel_at_erode_Some.
  apply foldr_min_greatest; [apply (proj1 (foldr_min_lower _ _)) |].
  intros v (i' & j' & Hv & Hreach)%neighbourhood_spec.
  destruct (pixel_at_same_shape b a i' j' v Hshape Hv) as [u Hu].
  transitivity u; [| by eapply Hle].
  apply (proj2 (foldr_min_lower _ _)), neighbourhood_spec. eauto.
Qed.

Lemma dilate_monotone a b ksize :
  grid_le a b → grid_le (cv2_dilate a ksize) (cv2_dilate b ksize).
Proof.
  intros [Hshape Hle]. split; [by rewrite !shape_dilate |].
  intros i j x y [_ ->]%pixel_at_dilate_Some [_ ->]%pixel_at_dilate_Some.
  apply foldr_max_least; [apply (proj1 (foldr_max_upper _ _)) |].
  intros u (i' & j' & Hu & Hreach)%neighbourhood_spec.
  destruct (pixel_at_same_shape a b i' j' u (eq_sym Hshape) Hu) as [v Hv].
  transitivity v; [by eapply Hle |].
  apply (proj2 (foldr_max_upper _ _)), neighbourhood_spec. eauto.
Qed.

(** With a kernel of odd side, opening lies below the array. *)
Lemma open_le m ksize :
  Z.odd ksize = true → is_uint8 m →
  grid_le (cv2_dilate (cv2_erode m ksize) ksize) m.
Proof.
  intros Hodd Hm. split; [by rewrite shape_dilate, shape_erode |].
  intros i j x y [_ ->]%pixel_at_dilate_Some Hy.
  apply foldr_max_least; [by eapply is_uint8_pixel |].
  intros v (i' & j' & Hv & Hi & Hj)%neighbourhood_spec.
  apply pixel_at_erode_Some in Hv as [_ ->].
  apply (proj2 (foldr_min_lower _ _)), neighbourhood_spec.
  exists i, j. split; [done |]. split; by apply reach_symmetric.
Qed.

(** With a kernel of odd side, closing lies above the array. *)
Lemma close_ge m ksize :
  Z.odd ksize = true → is_uint8 m →
  grid_le m (cv2_erode (cv2_dilate m ksize) ksize).
Proof.
  intros Hodd Hm. split; [by rewrite shape_erode, shape_dilate |].
  intros i j x y Hx [_ ->]%pixel_at_erode_Some.
  apply foldr_min_greatest; [by eapply is_uint8_pixel |].
  intros v (i' & j' & Hv & Hi & Hj)%neighbourhood_spec.
  apply pixel_at_dilate_Some in Hv as [_ ->].
  apply (proj2 (foldr_max_upper _ _)), neighbourhood_spec.
  exists i, j. split; [done |]. split; by apply reach_symmetric.
Qed.

Lemma dilate_erode_dilate m ksize :
  Z.odd ksize = true → is_uint8 m →
  cv2_dilate (cv2_erode (cv2_dilate m ksize) ksize) ksize = cv2_dilate m ksize.
Proof.
  intros Hodd Hm. apply grid_le_antisym.
  - apply open_le; [done | by apply is_uint8_dilate].
  - by apply dilate_monotone, close_ge.
Qed.

Lemma erode_dilate_erode m ksize :
  Z.odd ksize = true → is_uint8 m →
  cv2_erode (cv2_dilate (cv2_erode m ksize) ksize) ksize = cv2_erode m ksize.
Proof.
  intros Hodd Hm. apply grid_le_antisym.
  - by apply erode_monotone, open_le.
  - apply close_ge; [done | by apply is_uint8_erode].
Qed.

Lemma morphologyEx_twice m op ksize :
  Z.odd ksize = true → is_uint8 m →
  cv2_morphologyEx (cv2_morphologyEx m op ksize) op ksize = cv2_morphologyEx m op ksize.
Proof.
  intros Hodd Hm. destruct op; simpl.
  - by rewrite erode_dilate_erode.
  - by rewrite dilate_erode_dilate.
Qed.

(** A kernel of side 1 changes nothing. *)
Lemma erode_1 m : is_uint8 m → cv2_erode m 1 = m.
Proof.
  intros Hm. apply grid_le_antisym; [by apply erode_le |].
  split; [symmetry; apply shape_erode |].
  intros i j x y Hx [_ ->]%pixel_at_erode_Some.
  apply foldr_min_greatest; [by eapply is_uint8_pixel |].
  intros v (i' & j' & Hv & Hi & Hj)%neighbourhood_spec.
  change (1 / 2) with 0 in Hi, Hj.
  assert (i' = i) as -> by lia. assert (j' = j) as -> by lia.
  rewrite Hx in Hv. injection Hv as ->. lia.
Qed.

Lemma dilate_1 m : is_uint8 m → cv2_dilate m 1 = m.
Proof.
  intros Hm. symmetry. apply grid_le_antisym; [by apply dilate_ge |].
  split; [apply shape_dilate |].
  intros i j x y [_ ->]%pixel_at_dilate_Some Hy.
  apply foldr_max_least; [by eapply is_uint8_pixel |].
  intros v (i' & j' & Hv & Hi & Hj)%neighbourhood_spec.
  change (1 / 2) with 0 in Hi, Hj.
  assert (i' = i) as -> by lia. assert (j' = j) as -> by lia.
  rewrite Hy in Hv. injection Hv as ->. lia.
Qed.

(** X20. On an 8-bit array and with a square kernel of odd side at least
    1, the operations are ordered at every sample: erosion is below
    opening, opening below the array, the array below closing and closing
    below dilation.  Opening never adds foreground and closing never
    removes it. *)
Theorem morphology_chain m ksize
    (Hodd : Z.odd ksize = true) (Hk : 1 ≤ ksize) (Hm : is_uint8 m) :
  grid_le (cv2_erode m ksize) (cv2_morphologyEx m MORPH_OPEN ksize) ∧
  grid_le (cv2_morphologyEx m MORPH_OPEN ksize) m ∧
  grid_le m (cv2_morphologyEx m MORPH_CLOSE ksize) ∧
  grid_le (cv2_morphologyEx m MORPH_CLOSE ksize) (cv2_dilate m ksize).
Proof.
  simpl. split; [by apply dilate_ge |]. split; [by apply open_le |].
  split; [by apply close_ge |]. by apply erode_le.
Qed.

Lemma morphology_chain_witness :
  grid_le (cv2_erode [[0; 255]; [255; 255]] 3)
          (cv2_morphologyEx [[0; 255]; [255; 255]] MORPH_OPEN 3) ∧
  grid_le (cv2_morphologyEx [[0; 255]; [255; 255]] MORPH_OPEN 3) [[0; 255]; [255; 255]] ∧
  grid_le [[0; 255]; [255; 255]] (cv2_morphologyEx [[0; 255]; [255; 255]] MORPH_CLOSE 3) ∧
  grid_le (cv2_morphologyEx [[0; 255]; [255; 255]] MORPH_CLOSE 3)
          (cv2_dilate [[0; 255]; [255; 255]] 3).
Proof.
  apply (morphology_chain [[0; 255]; [255; 255]] 3); [reflexivity | lia |].
  repeat constructor; lia.
Defined.

(** X21. Erosion, dilation, opening and closing keep the order of arrays:
    a mask with more foreground gives a result with more foreground. *)
Theorem morphologyEx_monotone a b op ksize (Hab : grid_le a b) :
  grid_le (cv2_erode a ksize) (cv2_erode b ksize) ∧
  grid_le (cv2_dilate a ksize) (cv2_dilate b ksize) ∧
  grid_le (cv2_morphologyEx a op ksize) (cv2_morphologyEx b op ksize).
Proof.
  split; [by apply erode_monotone |]. split; [by apply dilate_monotone |].
  destruct op; simpl.
  - by apply dilate_monotone, erode_monotone.
  - by apply erode_monotone, dilate_monotone.
Qed.

Lemma morphologyEx_monotone_witness :
  grid_le (cv2_erode [[0; 255]; [0; 0]] 3) (cv2_erode [[0; 255]; [255; 255]] 3) ∧
  grid_le (cv2_dilate [[0; 255]; [0; 0]] 3) (cv2_dilate [[0; 255]; [255; 255]] 3) ∧
  grid_le (cv2_morphologyEx [[0; 255]; [0; 0]] MORPH_CLOSE 3)
          (cv2_morphologyEx [[0; 255]; [255; 255]] MORPH_CLOSE 3).
Proof.
  apply (morphologyEx_monotone [[0; 255]; [0; 0]] [[0; 255]; [255; 255]] MORPH_CLOSE 3).
  split; [reflexivity |].
  intros [| [| i]] [| [| j]] x y Hx Hy; vm_compute in Hx, Hy; simplify_eq; lia.
Defined.

(** X22. With a kernel of odd side, opening an opened 8-bit array and
    closing a closed one change nothing. *)
Theorem morphologyEx_idempotent m op ksize
    (Hodd : Z.odd ksize = true) (Hm : is_uint8 m) :
  cv2_morphologyEx (cv2_morphologyEx m op ksize) op ksize = cv2_morphologyEx m op ksize.
Proof. by apply morphologyEx_twice. Qed.

Lemma morphologyEx_idempotent_witness :
  cv2_morphologyEx (cv2_morphologyEx [[0; 255]; [255; 255]] MORPH_CLOSE 3) MORPH_CLOSE 3
  = cv2_morphologyEx [[0; 255]; [255; 255]] MORPH_CLOSE 3.
Proof.
  apply (morphologyEx_idempotent [[0; 255]; [255; 255]] MORPH_CLOSE 3); [reflexivity |].
  repeat constructor; lia.
Defined.

(** ** Further properties of the segmentation engine *)

Lemma valid_kernel_size_odd (v : Z) :
  Z.odd (get_valid_kernel_size v) = true ∧ 1 ≤ get_valid_kernel_size v.
Proof.
  unfold get_valid_kernel_size. rewrite lor_1_cases.
  destruct (Z.odd v) eqn:Hodd; split; try lia.
  - destruct (Z.max_spec 1 v) as [[_ ->] | [_ ->]]; done.
  - destruct (Z.max_spec 1 (v + 1)) as [[_ ->] | [_ ->]]; [| done].
    by rewrite Z.odd_add, Hodd.
Qed.

Lemma pixel_at_fmap {A B} (f : A → B) (m : grid A) i j :
  pixel_at ((λ row : list A, f <$> row) <$> m) i j = f <$> pixel_at m i j.
Proof.
  unfold pixel_at. rewrite list_lookup_fmap.
  destruct (m !! i) as [row |]; simpl; [| done].
  by rewrite list_lookup_fmap.
Qed.

(** The mask of [apply_mask] before denoising. *)
Lemma pixel_at_thresholded bgr2hsv image lower_bound upper_bound i j :
  pixel_at (cv2_inRange (cv2_cvtColor bgr2hsv image) lower_bound upper_bound) i j
  = (λ p, in_range lower_bound upper_bound (bgr2hsv p)) <$> pixel_at image i j.
Proof.
  unfold cv2_inRange, cv2_cvtColor. rewrite !pixel_at_fmap.
  by destruct (pixel_at image i j).
Qed.

Lemma shape_thresholded bgr2hsv image lower_bound upper_bound :
  shape (cv2_inRange (cv2_cvtColor bgr2hsv image) lower_bound upper_bound) = shape image.
Proof. unfold cv2_inRange, cv2_cvtColor. by rewrite !shape_fmap. Qed.

(** An array of one value is left as it is by erosion and by dilation. *)
Lemma erode_constant m ksize c :
  1 ≤ ksize → 0 ≤ c ≤ 255 →
  (∀ i j v, pixel_at m i j = Some v → v = c) →
  ∀ i j v, pixel_at (cv2_erode m ksize) i j = Some v → v = c.
Proof.
  intros Hk Hc Hm i j v [[u Hu] ->]%pixel_at_erode_Some.
  pose proof (Hm i j u Hu) as ->.
  apply Z.le_antisymm.
  - apply (proj2 (foldr_min_lower _ _)). by apply neighbourhood_self.
  - apply foldr_min_greatest; [lia |].
    intros x (i' & j' & Hx & _)%neighbourhood_spec.
    rewrite (Hm i' j' x Hx). lia.
Qed.

Lemma dilate_constant m ksize c :
  1 ≤ ksize → 0 ≤ c ≤ 255 →
  (∀ i j v, pixel_at m i j = Some v → v = c) →
  ∀ i j v, pixel_at (cv2_dilate m ksize) i j = Some v → v = c.
Proof.
  intros Hk Hc Hm i j v [[u Hu] ->]%pixel_at_dilate_Some.
  pose proof (Hm i j u Hu) as ->.
  apply Z.le_antisymm.
  - apply foldr_max_least; [lia |].
    intros x (i' & j' & Hx & _)%neighbourhood_spec.
    rewrite (Hm i' j' x Hx). lia.
  - apply (proj2 (foldr_max_upper _ _)). by apply neighbourhood_self.
Qed.

(** When the thresholded mask has one value, so has the mask that
    [apply_mask] returns. *)
Lemma apply_mask_constant bgr2hsv image lower_bound upper_bound kernel_size c :
  0 ≤ c ≤ 255 →
  (∀ i j p, pixel_at image i j = Some p →
            in_range lower_bound upper_bound (bgr2hsv p) = c) →
  ∀ i j v,
    pixel_at (apply_mask bgr2hsv image lower_bound upper_bound kernel_size).1 i j
      = Some v → v = c.
Proof.
  intros Hc Himg.
  assert (∀ i j v,
    pixel_at (cv2_inRange (cv2_cvtColor bgr2hsv image) lower_bound upper_bound) i j
      = Some v → v = c) as Hr.
  { intros i j v. rewrite pixel_at_thresholded.
    destruct (pixel_at image i j) as [p |] eqn:Hp; [| done].
    simpl. intros [= <-]. by eapply Himg. }
  unfold apply_mask. cbn [fst].
  destruct (1 <? kernel_size) eqn:Hk; [| exact Hr].
  apply Z.ltb_lt in Hk. unfold cv2_morphologyEx.
  apply erode_constant; [lia | done |].
  apply dilate_constant; [lia | done |].
  apply dilate_constant; [lia | done |].
  apply erode_constant; [lia | done |]. exact Hr.
Qed.

(** X23. The mask that [apply_mask] returns for a kernel size normalized
    by [get_valid_kernel_size] is closed: a second closing pass with the
    same kernel leaves it unchanged. *)
Theorem apply_mask_closing_stable bgr2hsv image lower_bound upper_bound (v : Z) :
  cv2_morphologyEx
    (apply_mask bgr2hsv image lower_bound upper_bound (get_valid_kernel_size v)).1
    MORPH_CLOSE (get_valid_kernel_size v)
  = (apply_mask bgr2hsv image lower_bound upper_bound (get_valid_kernel_size v)).1.
Proof.
  destruct (valid_kernel_size_odd v) as [Hodd Hpos].
  pose proof (is_mask_uint8 _
    (is_mask_inRange (cv2_cvtColor bgr2hsv image) lower_bound upper_bound)) as Hr.
  unfold apply_mask. cbn [fst].
  destruct (1 <? get_valid_kernel_size v) eqn:Hk.
  - apply morphologyEx_twice; [done |].
    unfold cv2_morphologyEx. by apply is_uint8_dilate, is_uint8_erode.
  - apply Z.ltb_ge in Hk.
    assert (get_valid_kernel_size v = 1) as -> by lia.
    unfold cv2_morphologyEx. by rewrite dilate_1, erode_1.
Qed.

Lemma bounds_lookup_le (a b : list Z) (c : nat) :
  Forall2 Z.le a b → default 0 (a !! c) ≤ default 0 (b !! c).
Proof.
  intros Hab. revert c.
  induction Hab as [| x y a b Hxy _ IH]; intros [| c]; simpl; done.
Qed.

(** Wider bounds accept every pixel that narrower bounds accept. *)
Lemma in_range_monotone lower_bound upper_bound lower_bound' upper_bound' p :
  Forall2 Z.le lower_bound' lower_bound → Forall2 Z.le upper_bound upper_bound' →
  in_range lower_bound upper_bound p ≤ in_range lower_bound' upper_bound' p.
Proof.
  intros Hlo Hup. unfold in_range.
  pose proof (bounds_lookup_le _ _ 0 Hlo). pose proof (bounds_lookup_le _ _ 1 Hlo).
  pose proof (bounds_lookup_le _ _ 2 Hlo). pose proof (bounds_lookup_le _ _ 0 Hup).
  pose proof (bounds_lookup_le _ _ 1 Hup). pose proof (bounds_lookup_le _ _ 2 Hup).
  match goal with |- (if ?narrow then _ else _) ≤ (if ?wide then _ else _) =>
    destruct narrow eqn:Hnarrow; [| destruct wide; lia];
    assert (wide = true) as ->; [| lia]
  end.
  rewrite !andb_true_iff, !Z.leb_le in Hnarrow.
  rewrite !andb_true_iff, !Z.leb_le. lia.
Qed.

(** X24. On a frame that is not empty and for bounds of three 32-bit
    integers, widening the bounds never removes a pixel from the mask:
    when every channel's lower bound is lowered or kept and every upper
    bound raised or kept, the mask [apply_mask] returns, denoised or not,
    is at least the former mask at every position. *)
Theorem apply_mask_monotone_bounds bgr2hsv image
    lower_bound upper_bound lower_bound' upper_bound' kernel_size
    (Hframe : nonempty_frame image = true)
    (Hvalid : valid_bounds lower_bound = true ∧ valid_bounds upper_bound = true ∧
              valid_bounds lower_bound' = true ∧ valid_bounds upper_bound' = true)
    (Hlo : Forall2 Z.le lower_bound' lower_bound)
    (Hup : Forall2 Z.le upper_bound upper_bound') :
  grid_le (apply_mask bgr2hsv image lower_bound upper_bound kernel_size).1
          (apply_mask bgr2hsv image lower_bound' upper_bound' kernel_size).1.
Proof.
  assert (grid_le
    (cv2_inRange (cv2_cvtColor bgr2hsv image) lower_bound upper_bound)
    (cv2_inRange (cv2_cvtColor bgr2hsv image) lower_bound' upper_bound')) as Hr.
  { split; [by rewrite !shape_thresholded |].
    intros i j x y. rewrite !pixel_at_thresholded.
    destruct (pixel_at image i j) as [p |]; [| done]. simpl.
    intros [= <-] [= <-]. by apply in_range_monotone. }
  unfold apply_mask. cbn [fst].
  destruct (1 <? kernel_size); [| exact Hr].
  unfold cv2_morphologyEx.
  by apply erode_monotone, dilate_monotone, dilate_monotone, erode_monotone.
Qed.

Lemma apply_mask_monotone_bounds_witness :
  grid_le (apply_mask value_only two_tone [0; 0; 100] [179; 255; 255] 1).1
          (apply_mask value_only two_tone [0; 0; 2] [179; 255; 255] 1).1.
Proof.
  apply (apply_mask_monotone_bounds value_only two_tone
           [0; 0; 100] [179; 255; 255] [0; 0; 2] [179; 255; 255] 1);
    [reflexivity | repeat split; reflexivity | repeat constructor; lia ..].
Defined.

(** X25. Bounds of three 32-bit integers that are out of order on a
    channel (the upper bound below the lower one) select nothing: whatever
    the kernel size, the mask is 0 and the result black at every pixel of
    the frame. *)
Theorem apply_mask_empty_range bgr2hsv image lower_bound upper_bound kernel_size
    (c i j : nat) p
    (Hvalid : valid_bounds lower_bound = true ∧ valid_bounds upper_bound = true)
    (Hc : (c < 3)%nat)
    (Hcross : default 0 (upper_bound !! c) < default 0 (lower_bound !! c))
    (Hp : pixel_at image i j = Some p) :
  pixel_at (apply_mask bgr2hsv image lower_bound upper_bound kernel_size).1 i j = Some 0 ∧
  pixel_at (apply_mask bgr2hsv image lower_bound upper_bound kernel_size).2 i j
    = Some black.
Proof.
  assert (∀ q, in_range lower_bound upper_bound q = 0) as Hzero.
  { intros q. unfold in_range.
    destruct (_ && _) eqn:Hin; [| done].
    rewrite !andb_true_iff, !Z.leb_le in Hin.
    destruct c as [| [| [| c]]]; lia. }
  destruct (apply_mask_mask bgr2hsv image lower_bound upper_bound kernel_size)
    as [_ Hshape].
  destruct (pixel_at_same_shape image _ i j p Hshape Hp) as [v Hv].
  assert (v = 0) as ->.
  { eapply (apply_mask_constant bgr2hsv image lower_bound upper_bound kernel_size 0);
      [lia | | exact Hv].
    intros. apply Hzero. }
  split; [done |].
  change (apply_mask bgr2hsv image lower_bound upper_bound kernel_size).2
    with (cv2_bitwise_and image image
            (apply_mask bgr2hsv image lower_bound upper_bound kernel_size).1).
  by rewrite (pixel_at_bitwise_and image _ i j p 0 Hp Hv).
Qed.

Lemma apply_mask_empty_range_witness :
  pixel_at (apply_mask value_only two_tone [0; 0; 200] [179; 255; 100] 3).1 0 0 = Some 0 ∧
  pixel_at (apply_mask value_only two_tone [0; 0; 200] [179; 255; 100] 3).2 0 0
    = Some black.
Proof.
  apply (apply_mask_empty_range value_only two_tone [0; 0; 200] [179; 255; 100] 3
           2%nat 0%nat 0%nat (Px 200 180 40)).
  - split; reflexivity.
  - lia.
  - simpl. lia.
  - reflexivity.
Defined.


